(** * The dashboard's API client and its mock fallback layer

    A shallow embedding of [src/lib/api.ts] (the response envelope, the
    job-submission operations and their polling callbacks), of
    [MockApiHandler] (the timer-driven in-memory substitute) and of the
    file validation of [UploadSection.tsx], followed by the properties
    of the specification that were checked against them.

    Conventions of the embedding:
    - a JavaScript string is a [string]; its characters are code units
      below 128, which is what URLs, JSON keys and file extensions use;
    - a JavaScript number is an integer [Z] (sizes in bytes, percentages);
    - an awaited promise is the outcome it settles with: the outcome of
      every request is an input of the operation that awaits it;
    - a callback supplied by the caller is a [bool] (was it supplied?) and
      every invocation is an entry of the observed effects;
    - the polling callback is async and its runs can overlap, so it is a
      transition system over the events that reach it: the timer fires, a
      request settles;
    - the timers of the mock run synchronous callbacks, so a mock is a
      function, with the time of each effect. *)

From stdpp Require Import gmap strings list.
From Stdlib Require Import ZArith Lia Ascii DecimalString.
From Stdlib Require DecimalFacts DecimalPos.

Local Open Scope string_scope.
Local Open Scope list_scope.
Local Open Scope Z_scope.
Set Warnings "-register-all".

(** ** The JavaScript runtime, as far as the client uses it *)

Module JS.

(** What [JSON.parse] yields, and [undefined] for an absent property. *)
Inductive value : Type :=
| VUndefined
| VNull
| VBool (b : bool)
| VNum (n : Z)
| VStr (s : string)
| VArr (items : list value)
| VObj (fields : list (string * value)).

(** [ToBoolean], the test behind [if (v)], [!v], [a && b], [a || b], [c ? a : b]. *)
Definition truthy (v : value) : bool :=
  match v with
  | VUndefined | VNull => false
  | VBool b => b
  | VNum n => negb (n =? 0)
  | VStr s => negb (String.eqb s "")
  | VArr _ | VObj _ => true
  end.

(** What a [throw] carries. The [catch] blocks of the client only ask
    [error instanceof Error] and then read [error.message]. *)
Inductive thrown : Type :=
| ErrorObj (message : string)
| NotAnError.

(** A computation that returns or throws (an awaited promise that is
    fulfilled or rejected). *)
Inductive result (A : Type) : Type :=
| Ret (a : A)
| Throw (e : thrown).
Arguments Ret {A} a.
Arguments Throw {A} e.

Definition bind {A B : Type} (m : result A) (k : A -> result B) : result B :=
  match m with
  | Ret a => k a
  | Throw e => Throw e
  end.

Fixpoint lookup_field (name : string) (fields : list (string * value)) : option value :=
  match fields with
  | [] => None
  | (k, v) :: rest => if String.eqb k name then Some v else lookup_field name rest
  end.

(** The message of the [TypeError] of a property read on [null] or
    [undefined]; engines word it differently, no code reads it. *)
Definition type_error : thrown := ErrorObj "Cannot read properties of null".

(** [v.name] for the names the client reads ([message], [jobId],
    [progress], [completed], [videoData]): a [TypeError] on [undefined] and
    [null], the field of an object, [undefined] on everything else (no
    primitive and no array has a property of one of these names). *)
Definition get_prop (v : value) (name : string) : result value :=
  match v with
  | VUndefined | VNull => Throw type_error
  | VObj fields => Ret (default VUndefined (lookup_field name fields))
  | VBool _ | VNum _ | VStr _ | VArr _ => Ret VUndefined
  end.

(** [s.startsWith(p)] *)
Fixpoint starts_with (p s : string) : bool :=
  match p, s with
  | EmptyString, _ => true
  | String a p', String b s' => Ascii.eqb a b && starts_with p' s'
  | String _ _, EmptyString => false
  end.

(** [s.includes(sub)] *)
Fixpoint includes (s sub : string) : bool :=
  starts_with sub s ||
  match s with
  | EmptyString => false
  | String _ s' => includes s' sub
  end.

(** [s.toLowerCase()] *)
Definition lower_char (c : ascii) : ascii :=
  let n := Ascii.N_of_ascii c in
  if ((65 <=? n) && (n <=? 90))%N then Ascii.ascii_of_N (n + 32) else c.

Fixpoint toLowerCase (s : string) : string :=
  match s with
  | EmptyString => EmptyString
  | String c s' => String (lower_char c) (toLowerCase s')
  end.

(** [s.split(".")]: never empty. *)
Fixpoint split_dot (s : string) : list string :=
  match s with
  | EmptyString => [""]
  | String c s' =>
      if Ascii.eqb c "."%char then "" :: split_dot s'
      else match split_dot s' with
           | seg :: segs => String c seg :: segs
           | [] => [String c ""]
           end
  end.

(** [arr.pop()] on an array of strings, [undefined] when it is empty. *)
Definition pop (segs : list string) : option string := last segs.

(** [String(n)] for an integer. *)
Definition string_of_Z (n : Z) : string :=
  match n with
  | Zneg p => "-" +:+ NilZero.string_of_uint (Pos.to_uint p)
  | _ => NilZero.string_of_uint (N.to_uint (Z.to_N n))
  end.

(** [(num / den).toFixed(2)] for [0 <= num] and [den] a power of two, the
    one way the code calls it: the quotient of an integer below 2^53 by a
    power of two is an exact double, and [toFixed] picks the integer [n]
    with [n / 100] nearest to it, the larger one on a tie. *)
Definition hundredths (num den : Z) : Z := (200 * num + den) / (2 * den).

Definition two_decimals (n : Z) : string :=
  string_of_Z (n / 100) +:+ "." +:+
  (if n mod 100 <? 10 then "0" else "") +:+ string_of_Z (n mod 100).

Definition toFixed2 (num den : Z) : string := two_decimals (hundredths num den).

End JS.

(** ** Regular expressions, with the backtracking order of [String.prototype.match] *)

Module RegExp.

Inductive regex : Type :=
| Eps
| Class (p : ascii -> bool)
| Seq (r1 r2 : regex)
| Alt (r1 r2 : regex)
| Opt (r : regex)
| Star (r : regex)
| Group (n : nat) (r : regex).

Record mstate : Type := MState {
  rest : string;
  caps : list (nat * string)
}.

(** The characters consumed between two states of one match. *)
Definition consumed (before after : mstate) : string :=
  String.substring 0 (String.length (rest before) - String.length (rest after))%nat
    (rest before).

(** [run r k st]: match [r] at [st] and continue with [k]; alternatives
    are tried left to right, [?] and [*] are greedy and give back on
    failure, and an iteration of [*] that consumes nothing is refused. *)
Fixpoint run (r : regex) (k : mstate -> option (list (nat * string)))
    (st : mstate) : option (list (nat * string)) :=
  match r with
  | Eps => k st
  | Class p =>
      match rest st with
      | String c s' => if p c then k (MState s' (caps st)) else None
      | EmptyString => None
      end
  | Seq r1 r2 => run r1 (run r2 k) st
  | Alt r1 r2 =>
      match run r1 k st with
      | Some c => Some c
      | None => run r2 k st
      end
  | Opt r1 =>
      match run r1 k st with
      | Some c => Some c
      | None => k st
      end
  | Star r1 =>
      (fix loop (fuel : nat) (st : mstate) {struct fuel} :=
         match fuel with
         | O => k st
         | S fuel' =>
             match run r1 (fun st' =>
                     if (String.length (rest st') <? String.length (rest st))%nat
                     then loop fuel' st' else None) st with
             | Some c => Some c
             | None => k st
             end
         end) (String.length (rest st)) st
  | Group n r1 =>
      run r1 (fun st' => k (MState (rest st') ((n, consumed st st') :: caps st'))) st
  end.

(** A pattern that starts with [^] is tried at index 0 only. *)
Definition exec_anchored (r : regex) (s : string) : option (list (nat * string)) :=
  run r (fun st => Some (caps st)) (MState s []).

Fixpoint capture (n : nat) (cs : list (nat * string)) : option string :=
  match cs with
  | [] => None
  | (m, s) :: cs' => if (m =? n)%nat then Some s else capture n cs'
  end.

Definition chr (c : ascii) : regex := Class (Ascii.eqb c).

(** A literal, character by character. *)
Fixpoint lit (s : string) : regex :=
  match s with
  | EmptyString => Eps
  | String c s' => Seq (chr c) (lit s')
  end.

(** [.]: anything but a line terminator. *)
Definition dot : regex :=
  Class (fun c => negb (Ascii.eqb c "010"%char || Ascii.eqb c "013"%char)).

(** [\w] *)
Definition word : regex :=
  Class (fun c =>
    let n := Ascii.N_of_ascii c in
    ((48 <=? n) && (n <=? 57) || (65 <=? n) && (n <=? 90) ||
     (97 <=? n) && (n <=? 122) || (n =? 95))%N).

(** [[^#&?]] *)
Definition not_delim : regex :=
  Class (fun c => negb (Ascii.eqb c "#"%char || Ascii.eqb c "&"%char || Ascii.eqb c "?"%char)).

(** [r{n}] *)
Fixpoint times (n : nat) (r : regex) : regex :=
  match n with
  | O => Eps
  | S n' => Seq r (times n' r)
  end.

(** [[a-zA-Z0-9_-]] *)
Definition is_id_char (c : ascii) : bool :=
  let n := Ascii.N_of_ascii c in
  ((48 <=? n) && (n <=? 57) || (65 <=? n) && (n <=? 90) ||
   (97 <=? n) && (n <=? 122) || (n =? 95) || (n =? 45))%N.

Definition id_char : regex := Class is_id_char.

(** [r.test(s)] for a pattern that starts with [^] and ends with [$]:
    tried at index 0 only, and the match has to end where the string ends. *)
Definition test_whole (r : regex) (s : string) : bool :=
  match run r (fun st => if String.eqb (rest st) "" then Some (caps st) else None)
          (MState s []) with
  | Some _ => true
  | None => false
  end.

End RegExp.

(** ** The response envelope of [api.ts] *)

Module Envelope.
Import JS.

(** [interface ApiResponse<T> { data?: T; error?: string }]: [None] is a
    key that the object does not have. Types are erased at run time, so
    both fields hold whatever value the code puts there. *)
Record ApiResponse : Type := mkApiResponse {
  data : option value;
  error : option value
}.

Definition with_data (v : value) : ApiResponse := {| data := Some v; error := None |}.
Definition with_error (v : value) : ApiResponse := {| data := None; error := Some v |}.

(** [result.data] and [result.error] as conditions. *)
Definition field_truthy (field : option value) : bool :=
  match field with
  | Some v => truthy v
  | None => false
  end.

(** What the client reads of a [Response]: [response.ok],
    [response.headers.get("content-type")] ([None] is [null]) and the
    outcomes of [response.json()] and [response.text()], which reject
    when the body cannot be read or parsed. *)
Record Response : Type := mkResponse {
  ok : bool;
  content_type : option string;
  json : result value;
  text : result string
}.

(** [contentType && contentType.includes("application/json")] *)
Definition isJson (response : Response) : bool :=
  match content_type response with
  | Some contentType =>
      negb (String.eqb contentType "") && includes contentType "application/json"
  | None => false
  end.

(** [isJson ? await response.json() : await response.text()] *)
Definition read_body (response : Response) : result value :=
  if isJson response then json response
  else bind (text response) (fun s => Ret (VStr s)).

Definition generic_error : value := VStr "An error occurred".

Definition handleResponse (response : Response) : result ApiResponse :=
  bind (read_body response) (fun data =>
    if negb (ok response) then
      if isJson response then
        bind (get_prop data "message") (fun message =>
          Ret (with_error (if truthy message then message else generic_error)))
      else Ret (with_error generic_error)
    else Ret (with_data data)).

(** [error instanceof Error ? error.message : fallback] *)
Definition message_or (fallback : string) (e : thrown) : value :=
  match e with
  | ErrorObj message => VStr message
  | NotAnError => VStr fallback
  end.

End Envelope.

(** ** What an operation does to the world around it *)

Module Effects.
Import JS Envelope.

(** The requests of the client. The base URL and the headers are left out;
    each constructor stands for one URL template of [api.ts]. *)
Inductive endpoint : Type :=
| VideoProcess (videoId : string) (settings : value)
    (* POST /api/videos/${videoId}/process *)
| ClipsGenerate (videoId : string) (settings : value)
    (* POST /api/videos/${videoId}/clips/generate *)
| YoutubeDownload (url quality : string)
    (* POST /api/videos/youtube/download *)
| JobProgress (jobId : value)
    (* GET /api/jobs/${jobId}/progress *)
| JobResult (jobId : value)
    (* GET /api/jobs/${jobId}/result *)
| VideoById (videoId : string)
    (* GET /api/videos/${videoId} *)
| VideoClips (videoId : string).
    (* GET /api/videos/${videoId}/clips *)

Inductive effect : Type :=
| Fetch (ep : endpoint)          (* fetch(...) is called *)
| OnProgress (v : value)         (* onProgress(v) is called *)
| ConsoleError (e : thrown)      (* console.error("Error polling for progress:", e) *)
| ClearInterval                  (* clearInterval(pollInterval) *)
| CallbackSettled (r : result ApiResponse).
    (* the promise of a run of the polling callback settles with an
       envelope or rejects; [setInterval] does not look at what its
       callback returns *)

(** A promise that has settled, and when (milliseconds after the call
    that created it). *)
Inductive settled (A : Type) : Type :=
| Fulfilled (at_ms : Z) (a : A)
| Rejected (at_ms : Z) (e : thrown).
Arguments Fulfilled {A} at_ms a.
Arguments Rejected {A} at_ms e.

(** [setInterval(cb, period)] when [cb] is synchronous: it runs at
    [period], [2 * period], ... after [now] until a run calls
    [clearInterval] (the [bool] of its result); [fuel] bounds the number of
    runs. The result is the last state, the effects with the time of each
    and the time of the last run. *)
Fixpoint setInterval {S : Type} (fuel : nat) (cb : S -> S * list effect * bool)
    (period now : Z) (s : S) : option (S * list (Z * effect) * Z) :=
  match fuel with
  | O => None
  | Datatypes.S fuel' =>
      let now := now + period in
      let '(s', effs, cleared) := cb s in
      let stamped := map (pair now) effs in
      if cleared then Some (s', stamped, now)
      else match setInterval fuel' cb period now s' with
           | Some (s'', later, t) => Some (s'', stamped ++ later, t)
           | None => None
           end
  end.

End Effects.

(** ** [MockApiHandler]: the in-memory substitute *)

Module MockApiHandler.
Import JS Effects RegExp.

Inductive status : Type := completed | processing | failed.

Record VideoData : Type := mkVideoData {
  vd_id : string;
  vd_name : string;
  vd_platform : string;
  vd_date : string;
  vd_status : status;
  vd_thumbnail : string;
  vd_duration : string;
  vd_size : string;
  vd_url : option string
}.

(** The heap of the module and its callers: arrays hold references to
    records, so that two arrays can share a record and two names can
    share an array. *)
Record store : Type := mkStore {
  objects : gmap positive VideoData;
  arrays : gmap positive (list positive)
}.

(** [const mockVideos], the one array the module owns. *)
Definition mockVideos : positive := 1%positive.

Definition unsplash (photo : string) : string :=
  "https://images.unsplash.com/photo-" +:+ photo +:+ "?w=120&q=80".

Definition initial_store : store :=
  {| objects :=
       <[1%positive := mkVideoData "1" "Product Demo.mp4" "YouTube" "2023-06-15"
           completed (unsplash "1611162616475-46b635cb6868") "2:15" "24.5 MB" None]>
      (<[2%positive := mkVideoData "2" "Tutorial Video.mp4" "Instagram" "2023-06-14"
           processing (unsplash "1626379953822-baec19c3accd") "1:30" "18.2 MB" None]>
      (<[3%positive := mkVideoData "3" "Marketing Clip.mp4" "TikTok" "2023-06-13"
           failed (unsplash "1536240478700-b869070f9279") "0:45" "8.7 MB" None]> ∅));
     arrays := {[ mockVideos := [1%positive; 2%positive; 3%positive] ]} |}.

(** An object literal: a new record at an address not in use. *)
Definition new_object (v : VideoData) (st : store) : positive * store :=
  let l := fresh (dom (objects st)) in
  (l, {| objects := <[l := v]> (objects st); arrays := arrays st |}).

(** An array literal: a new array at an address not in use. *)
Definition new_array (xs : list positive) (st : store) : positive * store :=
  let l := fresh (dom (arrays st)) in
  (l, {| objects := objects st; arrays := <[l := xs]> (arrays st) |}).

(** Any in-place change of the array at [a]: [push], [pop], [shift],
    [unshift], [splice], [reverse], [sort], [a[i] = x] and [a.length = n]
    are [f]. An address that holds no array is left alone. *)
Definition mutate_array (a : positive) (f : list positive -> list positive)
    (st : store) : store :=
  {| objects := objects st; arrays := alter f a (arrays st) |}.

(** [a.unshift(x)] *)
Definition unshift (a x : positive) (st : store) : store :=
  mutate_array a (cons x) st.

(** Any assignment to fields of the record at [l]. *)
Definition mutate_object (l : positive) (f : VideoData -> VideoData)
    (st : store) : store :=
  {| objects := alter f l (objects st); arrays := arrays st |}.

Definition set_status (s : status) (v : VideoData) : VideoData :=
  mkVideoData (vd_id v) (vd_name v) (vd_platform v) (vd_date v) s
    (vd_thumbnail v) (vd_duration v) (vd_size v) (vd_url v).

Definition set_platform (p : string) (v : VideoData) : VideoData :=
  mkVideoData (vd_id v) (vd_name v) p (vd_date v) (vd_status v)
    (vd_thumbnail v) (vd_duration v) (vd_size v) (vd_url v).

(** The elements of the array at [a], each with the record it refers to. *)
Definition read_array (a : positive) (st : store) : list (positive * VideoData) :=
  omap (fun l => pair l <$> objects st !! l) (default [] (arrays st !! a)).

(** What the module cannot compute from its arguments. *)
Record ambient : Type := mkAmbient {
  random_id : string;    (* Math.random().toString(36).substring(2, 9) *)
  today : string;        (* new Date().toISOString().split("T")[0] *)
  time_string : string   (* new Date().toLocaleTimeString() *)
}.

Record File : Type := mkFile {
  file_name : string;
  file_size : Z
}.

(** *** mockUploadVideo *)

(** One run of the interval callback: the counter, the store and the
    record that [resolve] will be called with once the counter is full. *)
Definition mockUploadVideo_tick (amb : ambient) (file : File) (onProgress : bool)
    (s : Z * store * option positive) : (Z * store * option positive) * list effect * bool :=
  let '(progress, st, _) := s in
  let progress := progress + 5 in
  let effs := if onProgress then [OnProgress (VNum progress)] else [] in
  if progress >=? 100 then
    let videoData :=
      {| vd_id := random_id amb;
         vd_name := file_name file;
         vd_platform := "Unknown";
         vd_date := today amb;
         vd_status := completed;
         vd_thumbnail := unsplash "1611162616475-46b635cb6868";
         vd_duration := "1:30";
         vd_size := toFixed2 (file_size file) (1024 * 1024) +:+ " MB";
         vd_url := None |} in
    let '(l, st) := new_object videoData st in
    ((progress, unshift mockVideos l st, Some l), effs, true)
  else ((progress, st, None), effs, false).

Definition mockUploadVideo (fuel : nat) (amb : ambient) (file : File)
    (onProgress : bool) (st : store)
  : option (settled positive * list (Z * effect) * store) :=
  match setInterval fuel (mockUploadVideo_tick amb file onProgress) 200 0 (0, st, None) with
  | Some ((_, st', Some l), effs, t) => Some (Fulfilled (t + 500) l, effs, st')
  | _ => None
  end.

(** *** mockGetUserVideos *)

(** [st] is the store when the timer of 500 ms fires. *)
Definition mockGetUserVideos (st : store) : settled positive * store :=
  let '(copy, st') := new_array (default [] (arrays st !! mockVideos)) st in
  (Fulfilled 500 copy, st').

(** *** mockProcessVideo *)

(** [mockVideos.find((v) => v.id === videoId)] *)
Definition find_video (videoId : string) (st : store) : option positive :=
  fst <$> List.find (fun lv => String.eqb (vd_id (snd lv)) videoId)
            (read_array mockVideos st).

Definition mockProcessVideo_tick (video : positive) (onProgress : bool)
    (s : Z * store) : (Z * store) * list effect * bool :=
  let '(progress, st) := s in
  let progress := progress + 10 in
  let effs := if onProgress then [OnProgress (VNum progress)] else [] in
  if progress >=? 100 then
    ((progress, mutate_object video (set_status completed) st), effs, true)
  else ((progress, st), effs, false).

(** [settings_platform] is [settings.platform], [None] when the settings
    have no such field. A [throw] in the executor of [new Promise] rejects
    the promise. *)
Definition mockProcessVideo (fuel : nat) (videoId : string)
    (settings_platform : option string) (onProgress : bool) (st : store)
  : option (settled positive * list (Z * effect) * store) :=
  match find_video videoId st with
  | None => Some (Rejected 0 (ErrorObj "Video not found"), [], st)
  | Some video =>
      let st := mutate_object video (set_status processing) st in
      let platform :=
        match settings_platform with
        | Some p => if String.eqb p "" then "YouTube" else p
        | None => "YouTube"
        end in
      let st := mutate_object video (set_platform platform) st in
      match setInterval fuel (mockProcessVideo_tick video onProgress) 300 0 (0, st) with
      | Some ((_, st'), effs, t) =>
          match objects st' !! video with
          | Some v =>
              let '(copy, st'') := new_object v st' in
              Some (Fulfilled (t + 500) copy, effs, st'')
          | None => None
          end
      | None => None
      end
  end.

(** *** mockUploadYoutubeVideo *)

(** The pattern of [getYoutubeVideoId], piece by piece; its groups are
    numbered by their opening parenthesis, the last one is group 7. *)
Definition regExp : regex :=
  Seq (Star dot)                                           (* ^.*          *)
 (Seq (Group 1
        (Alt (Group 2 (Seq (lit "youtu") (Seq dot (lit "be/"))))  (* youtu.be\/  *)
        (Alt (Group 3 (lit "v/"))                          (* v\/         *)
        (Alt (Group 4 (Seq (lit "/u/") (Seq word (lit "/"))))  (* \/u\/\w\/   *)
        (Alt (Group 5 (lit "embed/"))                      (* embed\/     *)
             (Group 6 (lit "watch?")))))))                 (* watch\?     *)
 (Seq (Opt (chr "?"))                                      (* \??         *)
 (Seq (Opt (chr "v"))                                      (* v?          *)
 (Seq (Opt (chr "="))                                      (* =?          *)
 (Seq (Group 7 (Star not_delim))                           (* [^#&?] star *)
      (Star dot)))))).                                     (* . star      *)

(** [match && match[7].length === 11 ? match[7] : null] *)
Definition getYoutubeVideoId (url : string) : option string :=
  match exec_anchored regExp url with
  | Some groups =>
      match capture 7 groups with
      | Some id => if (String.length id =? 11)%nat then Some id else None
      | None => None
      end
  | None => None
  end.

Definition mockUploadYoutubeVideo_tick (amb : ambient) (videoId : string) (onProgress : bool)
    (s : Z * store * option positive) : (Z * store * option positive) * list effect * bool :=
  let '(progress, st, _) := s in
  let progress := progress + 5 in
  let effs := if onProgress then [OnProgress (VNum progress)] else [] in
  if progress >=? 100 then
    let videoTitle := "YouTube Import - " +:+ time_string amb in
    let videoData :=
      {| vd_id := "yt-" +:+ videoId;
         vd_name := videoTitle;
         vd_platform := "YouTube";
         vd_date := today amb;
         vd_status := completed;
         vd_thumbnail := "https://img.youtube.com/vi/" +:+ videoId +:+ "/mqdefault.jpg";
         vd_duration := "3:45";
         vd_size := "32.7 MB";
         vd_url := Some ("https://www.youtube.com/watch?v=" +:+ videoId) |} in
    let '(l, st) := new_object videoData st in
    ((progress, unshift mockVideos l st, Some l), effs, true)
  else ((progress, st, None), effs, false).

Definition mockUploadYoutubeVideo (fuel : nat) (amb : ambient) (youtubeUrl : string)
    (onProgress : bool) (st : store)
  : option (settled positive * list (Z * effect) * store) :=
  match getYoutubeVideoId youtubeUrl with
  | None => Some (Rejected 0 (ErrorObj "Invalid YouTube URL"), [], st)
  | Some videoId =>
      match setInterval fuel (mockUploadYoutubeVideo_tick amb videoId onProgress) 200 0
              (0, st, None) with
      | Some ((_, st', Some l), effs, t) => Some (Fulfilled (t + 500) l, effs, st')
      | _ => None
      end
  end.

(** *** mockDeleteVideo *)

(** [mockVideos.findIndex((video) => video.id === id)], counted from [i];
    [None] is -1. *)
Fixpoint findIndex_from (id : string) (st : store) (xs : list positive) (i : nat)
  : option nat :=
  match xs with
  | [] => None
  | l :: xs' =>
      if match objects st !! l with
         | Some video => String.eqb (vd_id video) id
         | None => false
         end
      then Some i
      else findIndex_from id st xs' (S i)
  end.

(** The search and [mockVideos.splice(index, 1)] happen in the call; the
    promise resolves 300 ms later, with nothing. *)
Definition mockDeleteVideo (id : string) (st : store) : settled unit * store :=
  let index := findIndex_from id st (default [] (arrays st !! mockVideos)) 0 in
  (Fulfilled 300 tt,
   match index with
   | Some i => mutate_array mockVideos (delete i) st
   | None => st
   end).

End MockApiHandler.


(** ** The job-submission operations of [api.ts] *)

Module Api.
Import JS Envelope Effects MockApiHandler.

Inductive operation : Type :=
| ProcessVideo (videoId : string)
| GenerateClips (videoId : string)
| UploadYoutubeVideo.

(** What an operation has called [setInterval] for: the job it polls. *)
Record job : Type := mkJob {
  job_of : operation;
  jobId : value
}.

(** A stretch of the body of an async function, run from a state: the
    state it leaves, the effects it had in order, and whether it returned
    or threw. The outcome of every awaited request is an input. *)
Section Body.
Context {S : Type}.

Definition body (A : Type) : Type := S -> S * list effect * result A.

Definition ret {A : Type} (a : A) : body A := fun s => (s, [], Ret a).

Definition await {A : Type} (p : result A) : body A := fun s => (s, [], p).

Definition emit (e : effect) : body unit := fun s => (s, [e], Ret tt).

Definition update (f : S -> S) : body unit := fun s => (f s, [], Ret tt).

Definition and_then {A B : Type} (m : body A) (k : A -> body B) : body B := fun s =>
  let '(s1, e1, r) := m s in
  match r with
  | Ret a => let '(s2, e2, r2) := k a s1 in (s2, e1 ++ e2, r2)
  | Throw x => (s1, e1, Throw x)
  end.

Definition try_catch {A : Type} (m : body A) (handler : thrown -> body A) : body A :=
  fun s =>
    let '(s1, e1, r) := m s in
    match r with
    | Ret a => (s1, e1, Ret a)
    | Throw x => let '(s2, e2, r2) := handler x s1 in (s2, e1 ++ e2, r2)
    end.
End Body.

Notation "'let!' x := m 'in' k" := (and_then m (fun x => k))
  (at level 10, x name, m at level 100, k at level 200).
Notation "'do!' m 'in' k" := (and_then m (fun _ => k))
  (at level 10, m at level 100, k at level 200).

(** [await fetch(...)]: the request goes out, [net] answers it. *)
Definition fetch {S : Type} (net : endpoint -> result Response) (ep : endpoint)
  : body (S := S) Response :=
  do! emit (Fetch ep) in await (net ep).

(** [{ id: ..., status: "processing" } as VideoData] *)
Definition processing_placeholder (id : value) : value :=
  VObj [("id", id); ("status", VStr "processing")].

(** [setInterval(async () => {...}, 1000)] in an operation: from now on
    the job is polled. *)
Definition start_polling (j : job) : body (S := option job) unit :=
  update (fun _ => Some j).

Definition processVideo (net : endpoint -> result Response) (videoId : string)
    (settings : value) (onProgress : bool) : body (S := option job) ApiResponse :=
  try_catch
    (let! response := fetch net (VideoProcess videoId settings) in
     let! result := await (handleResponse response) in
     if field_truthy (error result) || negb (field_truthy (data result)) then ret result
     else
       let! jobId := await (get_prop (default VUndefined (data result)) "jobId") in
       if onProgress then
         do! start_polling (mkJob (ProcessVideo videoId) jobId) in
         ret (with_data (processing_placeholder (VStr videoId)))
       else ret (with_data (processing_placeholder (VStr videoId))))
    (fun error => ret (with_error (message_or "Processing failed" error))).

Definition generateClips (net : endpoint -> result Response) (videoId : string)
    (settings : value) (onProgress : bool) : body (S := option job) ApiResponse :=
  try_catch
    (let! response := fetch net (ClipsGenerate videoId settings) in
     let! result := await (handleResponse response) in
     if field_truthy (error result) || negb (field_truthy (data result)) then ret result
     else
       let! jobId := await (get_prop (default VUndefined (data result)) "jobId") in
       if onProgress then
         do! start_polling (mkJob (GenerateClips videoId) jobId) in
         ret (with_data (VArr []))
       else ret (with_data (VArr [])))
    (fun error => ret (with_error (message_or "Clip generation failed" error))).

(** A record of the mock as the value that [{ data: mockData }] holds. *)
Definition status_string (s : status) : string :=
  match s with
  | completed => "completed"
  | processing => "processing"
  | failed => "failed"
  end.

Definition video_value (v : VideoData) : value :=
  VObj ([("id", VStr (vd_id v)); ("name", VStr (vd_name v));
         ("platform", VStr (vd_platform v)); ("date", VStr (vd_date v));
         ("status", VStr (status_string (vd_status v)));
         ("thumbnail", VStr (vd_thumbnail v)); ("duration", VStr (vd_duration v));
         ("size", VStr (vd_size v))] ++
        match vd_url v with
        | Some u => [("url", VStr u)]
        | None => []
        end).

(** The inner [try] block of [uploadYoutubeVideo], after the first
    [onProgress(5)]. Its value is what the [return] statements hand over:
    an envelope, or the promise of [handleResponse], which is returned
    without [await] and so settles outside both [catch] blocks. *)
Definition uploadYoutubeVideo_try (net : endpoint -> result Response)
    (youtubeUrl : string) (onProgress : bool) (quality : string)
  : body (S := option job) (result ApiResponse) :=
  let! response := fetch net (YoutubeDownload youtubeUrl quality) in
  let! initialResult := await (handleResponse response) in
  if field_truthy (error initialResult) || negb (field_truthy (data initialResult))
  then ret (Ret initialResult)
  else
    let! jobId := await (get_prop (default VUndefined (data initialResult)) "jobId") in
    if onProgress then
      do! emit (OnProgress (VNum 10)) in
      do! start_polling (mkJob UploadYoutubeVideo jobId) in
      ret (Ret (with_data (processing_placeholder jobId)))
    else
      let! videoResponse := fetch net (JobResult jobId) in
      ret (handleResponse videoResponse).

(** [quality] is [None] when the caller leaves it out. [fuel] bounds the
    runs of the mock's timer and [st] is the store of the mock module;
    neither matters unless the inner [try] block throws. *)
Definition uploadYoutubeVideo (fuel : nat) (amb : ambient)
    (net : endpoint -> result Response) (youtubeUrl : string) (onProgress : bool)
    (quality : option string) (st : store)
  : option (option job * store * list effect * result ApiResponse) :=
  let quality := default "720p" quality in
  let attempt :=
    do! (if onProgress then emit (OnProgress (VNum 5)) else ret tt) in
    uploadYoutubeVideo_try net youtubeUrl onProgress quality in
  match attempt None with
  | (j, effs, Ret returned) => Some (j, st, effs, returned)
  | (j, effs, Throw fetchError) =>
      match mockUploadYoutubeVideo fuel amb youtubeUrl onProgress st with
      | Some (Fulfilled _ l, ticks, st') =>
          match objects st' !! l with
          | Some mockData =>
              Some (j, st', effs ++ map snd ticks, Ret (with_data (video_value mockData)))
          | None => None
          end
      | Some (Rejected _ mockError, ticks, st') =>
          Some (j, st', effs ++ map snd ticks,
                Ret (with_error (message_or "Failed to download YouTube video" mockError)))
      | None => None
      end
  end.

(** *** The polling callback

    The callback is async: a run goes from the timer to its first [await],
    and goes on when the awaited request settles. Runs overlap when an
    answer takes longer than the period, so the state keeps the requests
    that are still out. *)

Inductive awaiting : Type := ProgressResponse | FinalResponse.

Record polling : Type := mkPolling {
  active : bool;                      (* the interval has not been cleared *)
  issued : nat;                       (* requests sent so far *)
  pending : list (nat * awaiting)     (* requests not yet settled *)
}.

Definition polling_started : polling := mkPolling true 0 [].

(** What happens to a polled job from outside. *)
Inductive event : Type :=
| TimerFires
| ProgressSettles (request : nat) (outcome : result Response)
| FinalSettles (request : nat) (outcome : result Response).

(** The run has called [fetch] and waits for the answer. *)
Definition suspend (w : awaiting) : body (S := polling) unit :=
  update (fun s => mkPolling (active s) (S (issued s)) ((issued s, w) :: pending s)).

Definition clearInterval : body (S := polling) unit :=
  do! emit ClearInterval in
  update (fun s => mkPolling false (issued s) (pending s)).

(** The request for the final result, per operation. *)
Definition result_endpoint (j : job) : endpoint :=
  match job_of j with
  | ProcessVideo videoId => VideoById videoId
  | GenerateClips videoId => VideoClips videoId
  | UploadYoutubeVideo => JobResult (jobId j)
  end.

(** From the timer to [await fetch(.../progress)]. *)
Definition poll_request (j : job) : body (S := polling) unit :=
  do! emit (Fetch (JobProgress (jobId j))) in
  suspend ProgressResponse.

(** From the answer of the poll request to the end of the run or to
    [await fetch(...)] for the final result. Only [uploadYoutubeVideo]
    looks for [videoData] in the answer. *)
Definition poll_progress (j : job) (outcome : result Response) : body (S := polling) unit :=
  try_catch
    (let! progressResponse := await outcome in
     let! progressResult := await (handleResponse progressResponse) in
     if field_truthy (data progressResult) then
       let d := default VUndefined (data progressResult) in
       let! progress := await (get_prop d "progress") in
       do! emit (OnProgress progress) in
       let! completed := await (get_prop d "completed") in
       if truthy completed then
         do! clearInterval in
         let! videoData :=
           match job_of j with
           | UploadYoutubeVideo => await (get_prop d "videoData")
           | _ => ret VUndefined
           end in
         if truthy videoData then emit (CallbackSettled (Ret (with_data videoData)))
         else
           do! emit (Fetch (result_endpoint j)) in
           suspend FinalResponse
       else ret tt
     else ret tt)
    (fun error => emit (ConsoleError error)).

(** From the answer of the final request to [return handleResponse(...)]:
    the promise is returned without [await], a rejection of it is not
    caught. *)
Definition poll_final (outcome : result Response) : body (S := polling) unit :=
  try_catch
    (let! videoResponse := await outcome in
     emit (CallbackSettled (handleResponse videoResponse)))
    (fun error => emit (ConsoleError error)).

Fixpoint take_pending (n : nat) (w : awaiting) (ps : list (nat * awaiting))
  : option (list (nat * awaiting)) :=
  match ps with
  | [] => None
  | (m, w') :: ps' =>
      if (m =? n)%nat then
        match w, w' with
        | ProgressResponse, ProgressResponse | FinalResponse, FinalResponse => Some ps'
        | _, _ => None
        end
      else cons (m, w') <$> take_pending n w ps'
  end.

(** One event. [None]: the event cannot happen in this state (a cleared
    timer does not fire, only a request that is out can settle). *)
Definition step (j : job) (ev : event) (s : polling) : option (polling * list effect) :=
  match ev with
  | TimerFires =>
      if active s then Some (fst (poll_request j s)) else None
  | ProgressSettles n outcome =>
      match take_pending n ProgressResponse (pending s) with
      | Some ps => Some (fst (poll_progress j outcome (mkPolling (active s) (issued s) ps)))
      | None => None
      end
  | FinalSettles n outcome =>
      match take_pending n FinalResponse (pending s) with
      | Some ps => Some (fst (poll_final outcome (mkPolling (active s) (issued s) ps)))
      | None => None
      end
  end.

Fixpoint run (j : job) (evs : list event) (s : polling) : option (polling * list effect) :=
  match evs with
  | [] => Some (s, [])
  | ev :: evs' =>
      match step j ev s with
      | Some (s1, e1) =>
          match run j evs' s1 with
          | Some (s2, e2) => Some (s2, e1 ++ e2)
          | None => None
          end
      | None => None
      end
  end.

(** The schedule in which every poll is answered before the next tick:
    request [n] is the poll of tick [n]. *)
Fixpoint in_turn (n : nat) (answers : list (result Response)) : list event :=
  match answers with
  | [] => []
  | a :: rest => TimerFires :: ProgressSettles n a :: in_turn (S n) rest
  end.

(** The values handed to [onProgress], in order. *)
Definition progress_calls (effs : list effect) : list value :=
  omap (fun e => match e with OnProgress v => Some v | _ => None end) effs.

(** *** Authentication and the plain calls *)

(** [String(v)] and [JSON.stringify(v)] of the runtime, which
    [localStorage.setItem] and [login] apply to what the server sent. *)
Record builtins : Type := mkBuiltins {
  ToString : value -> string;
  stringify : value -> string
}.

(** [localStorage] is a map from keys to strings. *)
Definition getAuthHeaders (localStorage : gmap string string) : list (string * string) :=
  ("Content-Type", "application/json") ::
  match localStorage !! "authToken" with
  | Some token => if String.eqb token "" then [] else [("Authorization", "Bearer " +:+ token)]
  | None => []
  end.

(** [outcome] is how the request to /api/auth/login settles. The storage
    is written after [await handleResponse(response)], inside the [try]. *)
Definition login (rt : builtins) (outcome : result Response)
    (localStorage : gmap string string) : gmap string string * ApiResponse :=
  let attempt :=
    bind outcome (fun response =>
    bind (handleResponse response) (fun result =>
      if field_truthy (data result) then
        bind (get_prop (default VUndefined (data result)) "token") (fun token =>
          if truthy token then
            bind (get_prop (default VUndefined (data result)) "user") (fun user =>
              Ret (<["user" := stringify rt user]>
                     (<["authToken" := ToString rt token]> localStorage), result))
          else Ret (localStorage, result))
      else Ret (localStorage, result))) in
  match attempt with
  | Ret r => r
  | Throw error => (localStorage, with_error (message_or "Login failed" error))
  end.

(** The headers that [logout] sends with its request to /api/auth/logout. *)
Definition logout_headers (localStorage : gmap string string) : list (string * string) :=
  getAuthHeaders localStorage.

(** [outcome] is how that request settles; the answer is not looked at.
    The effect is [console.error("Logout error:", error)]. *)
Definition logout (outcome : result Response) (localStorage : gmap string string)
  : gmap string string * list effect :=
  match outcome with
  | Ret _ => (delete "user" (delete "authToken" localStorage), [])
  | Throw error => (localStorage, [ConsoleError error])
  end.

(** [deleteVideo]: [return handleResponse(response)] is not awaited, a
    rejection of it is the rejection of [deleteVideo]. *)
Definition deleteVideo (outcome : result Response) : result ApiResponse :=
  match outcome with
  | Ret response => handleResponse response
  | Throw error => Ret (with_error (message_or "Failed to delete video" error))
  end.

End Api.

(** ** [VideoHistory.tsx]: selecting and deleting videos *)

Module VideoHistory.
Import JS Envelope Effects MockApiHandler Api.

(** The state of the component that these handlers write. *)
Record history : Type := mkHistory {
  videos : list VideoData;
  selectedVideos : list string;
  error_shown : option value
}.

(** The updater that [toggleSelectVideo] hands to [setSelectedVideos]. *)
Definition toggleSelectVideo (id : string) (prev : list string) : list string :=
  if existsb (String.eqb id) prev
  then List.filter (fun videoId => negb (String.eqb videoId id)) prev
  else prev ++ [id].

(** [prev.filter((video) => video.id !== id)] *)
Definition without (id : string) (prev : list VideoData) : list VideoData :=
  List.filter (fun video => negb (String.eqb (vd_id video) id)) prev.

(** How the loop of [handleDeleteSelected] ends. *)
Inductive loop_end : Type :=
| Finished
| Broke (error_value : value)
| Threw (e : thrown).

(** The [for] loop of [handleDeleteSelected]; [net id] is how the request
    to delete [id] settles. *)
Fixpoint delete_each (net : string -> result Response) (ids : list string)
    (current : list VideoData) : list VideoData * loop_end :=
  match ids with
  | [] => (current, Finished)
  | id :: rest =>
      match deleteVideo (net id) with
      | Throw e => (current, Threw e)
      | Ret result =>
          if field_truthy (error result)
          then (current, Broke (default VUndefined (error result)))
          else delete_each net rest (without id current)
      end
  end.

Definition handleDeleteSelected (net : string -> result Response) (st : history) : history :=
  let '(remaining, ending) := delete_each net (selectedVideos st) (videos st) in
  match ending with
  | Finished => mkHistory remaining [] (error_shown st)
  | Broke error_value => mkHistory remaining [] (Some error_value)
  | Threw e =>
      mkHistory remaining (selectedVideos st)
        (Some (message_or "Failed to delete videos" e))
  end.

End VideoHistory.

(** ** [UploadSection.tsx]: the validation of dropped or chosen files *)

Module UploadSection.
Import JS MockApiHandler.

Definition supportedFormats_default : list string :=
  [".mp4"; ".mov"; ".avi"; ".mkv"; ".webm"].

Definition maxFileSize_default : Z := 500.

(** [arr.join(sep)] *)
Fixpoint join (sep : string) (xs : list string) : string :=
  match xs with
  | [] => ""
  | [x] => x
  | x :: rest => x +:+ sep +:+ join sep rest
  end.

(** The template with [file.name.split(".").pop()?.toLowerCase()] *)
Definition extension_of (name : string) : string :=
  "." +:+ match pop (split_dot name) with
          | Some seg => toLowerCase seg
          | None => "undefined"
          end.

Definition unsupported_message (supportedFormats : list string) (extension : string) : string :=
  "Unsupported file format: " +:+ extension +:+ ". Please use: " +:+
  join ", " supportedFormats.

Definition too_large_message (maxFileSize : Z) (name : string) : string :=
  "File too large: " +:+ name +:+ ". Maximum size is " +:+ string_of_Z maxFileSize +:+ "MB".

(** The [for] loop of [validateFiles]: the files it keeps and the
    arguments of its calls of [setError], in order. *)
Fixpoint validate_each (supportedFormats : list string) (maxFileSize : Z)
    (fileArray : list File) : list File * list (option string) :=
  match fileArray with
  | [] => ([], [])
  | file :: rest =>
      let '(validFiles, errors) := validate_each supportedFormats maxFileSize rest in
      let extension := extension_of (file_name file) in
      if negb (existsb (String.eqb extension) supportedFormats) then
        (validFiles, Some (unsupported_message supportedFormats extension) :: errors)
      else if file_size file >? maxFileSize * 1024 * 1024 then
        (validFiles, Some (too_large_message maxFileSize (file_name file)) :: errors)
      else (file :: validFiles, errors)
  end.

(** [setError(null)] comes first. *)
Definition validateFiles (supportedFormats : list string) (maxFileSize : Z)
    (fileList : list File) : list File * list (option string) :=
  let '(validFiles, errors) := validate_each supportedFormats maxFileSize fileList in
  (validFiles, None :: errors).

(** [handleDrop] and [handleFileInputChange] up to the call of
    [uploadVideo] in [handleUpload], the first request of the component:
    the calls of [setError] and the file that is handed to [uploadVideo]. *)
Definition handleFileInputChange (supportedFormats : list string) (maxFileSize : Z)
    (files : list File) : list (option string) * option File :=
  if (0 <? length files)%nat then
    let '(validFiles, errors) := validateFiles supportedFormats maxFileSize files in
    match validFiles with
    | first :: _ => (errors ++ [None], Some first)
    | [] => (errors, None)
    end
  else ([], None).

(** The [error] of the component after a sequence of [setError] calls. *)
Definition final_error (before : option string) (calls : list (option string)) : option string :=
  default before (last calls).

(** The pattern of [validateYoutubeUrl], between [^] and [$]; every dot
    of a host name is escaped in the source. *)
Definition youtubeRegex : RegExp.regex :=
  RegExp.Seq (RegExp.Opt (RegExp.Group 1                       (* (https?:\/\/)? *)
     (RegExp.Seq (RegExp.lit "http")
        (RegExp.Seq (RegExp.Opt (RegExp.chr "s")) (RegExp.lit "://")))))
 (RegExp.Seq (RegExp.Opt (RegExp.Group 2 (RegExp.lit "www.")))  (* (www\.)? *)
 (RegExp.Seq (RegExp.Group 3
     (RegExp.Alt (RegExp.lit "youtube.com/watch?v=")           (* youtube\.com\/watch\?v= *)
                 (RegExp.lit "youtu.be/")))                    (* youtu\.be\/ *)
 (RegExp.Seq (RegExp.Group 4 (RegExp.times 11 RegExp.id_char))  (* ([a-zA-Z0-9_-]{11}) *)
             (RegExp.Star RegExp.dot)))).                      (* . star *)

Definition validateYoutubeUrl (url : string) : bool :=
  RegExp.test_whole youtubeRegex url.

(** [handleYoutubeUpload] up to its call of [uploadYoutubeVideo]: the URL
    and the quality that it passes, with a progress callback, or [None]
    when it returns before the call. *)
Definition handleYoutubeUpload (youtubeUrl selectedQuality : string)
  : option (string * option string) :=
  if String.eqb youtubeUrl "" || negb (validateYoutubeUrl youtubeUrl) then None
  else Some (youtubeUrl, Some selectedQuality).

End UploadSection.

(** ** The vocabulary of the properties, and sample inputs *)

Module Samples.
Import JS Envelope Effects MockApiHandler Api UploadSection.

(** An envelope has exactly one of its two keys. *)
Definition exactly_one (env : ApiResponse) : Prop :=
  (is_Some (data env) /\ error env = None) \/ (data env = None /\ is_Some (error env)).

(** A response with a JSON body. *)
Definition json_response (status_ok : bool) (body : value) : Response :=
  mkResponse status_ok (Some "application/json") (Ret body) (Ret "").

(** The calls of [onProgress] of a mock timer: run [k] comes [period * k]
    milliseconds after the start and reports [step * k]. *)
Definition ticks (period step : Z) (n : nat) : list (Z * effect) :=
  map (fun k : nat => (period * Z.of_nat k, OnProgress (VNum (step * Z.of_nat k))))
    (List.seq 1 n).

(** [d.name] where it cannot throw. *)
Definition prop (d : value) (name : string) : value :=
  match get_prop d name with
  | Ret v => v
  | Throw _ => VUndefined
  end.

(** What an answer to a poll request reports: the [progress] field of its
    data, when it has data. *)
Definition reported (ev : event) : list value :=
  match ev with
  | ProgressSettles _ (Ret response) =>
      match handleResponse response with
      | Ret r => if field_truthy (data r) then [prop (default VUndefined (data r)) "progress"] else []
      | Throw _ => []
      end
  | _ => []
  end.

(** How a poll request fails: it is rejected, or its answer cannot be read. *)
Definition failure_of (outcome : result Response) : option thrown :=
  match outcome with
  | Throw e => Some e
  | Ret response =>
      match handleResponse response with
      | Throw e => Some e
      | Ret _ => None
      end
  end.

(** The inline result that a run of the callback looks for. *)
Definition inline_result (j : job) (d : value) : value :=
  match job_of j with
  | UploadYoutubeVideo => prop d "videoData"
  | _ => VUndefined
  end.

Definition nondecreasing (vs : list value) : Prop :=
  forall (i : nat) (a b : Z), vs !! i = Some (VNum a) -> vs !! S i = Some (VNum b) -> a <= b.

(** An answer of the progress resource. *)
Definition progress_answer (progress : Z) (completed : bool) : result Response :=
  Ret (json_response true (VObj [("progress", VNum progress); ("completed", VBool completed)])).

(** A server that accepts every submission as job "job-1" and serves
    [final] as every result. *)
Definition accepting (final : value) (ep : endpoint) : result Response :=
  match ep with
  | VideoProcess _ _ | ClipsGenerate _ _ | YoutubeDownload _ _ =>
      Ret (json_response true (VObj [("jobId", VStr "job-1")]))
  | JobProgress _ => progress_answer 100 true
  | JobResult _ | VideoById _ | VideoClips _ => Ret (json_response true final)
  end.

(** No server: every request is rejected. *)
Definition unreachable (ep : endpoint) : result Response :=
  Throw (ErrorObj "Failed to fetch").

Definition finished_video : value :=
  VObj [("id", VStr "v9"); ("name", VStr "talk.mp4"); ("status", VStr "completed")].

Definition sample_ambient : ambient := mkAmbient "k3x9q2a" "2024-05-01" "10:15:00".

(** A file of 10 MB. *)
Definition clip_mp4 : File := mkFile "clip.mp4" (10 * 1024 * 1024).

(** A request for the final result of a job. *)
Definition is_result_request (e : effect) : bool :=
  match e with
  | Fetch (JobResult _) | Fetch (VideoById _) | Fetch (VideoClips _) => true
  | _ => false
  end.

(** An answer to a poll request that reports [completed] and carries no
    inline result that the callback would use. *)
Definition completes_without_inline (j : job) (ev : event) : bool :=
  match ev with
  | ProgressSettles _ (Ret response) =>
      match handleResponse response with
      | Ret r =>
          match data r with
          | Some d =>
              truthy d && truthy (prop d "completed") && negb (truthy (inline_result j d))
          | None => false
          end
      | Throw _ => false
      end
  | _ => false
  end.

(** The effects of polls that are answered in turn with data that is not
    yet complete. *)
Definition polled_in_turn (j : job) (values : list Z) : list effect :=
  flat_map (fun p => [Fetch (JobProgress (jobId j)); OnProgress (VNum p)]) values.

(** A file that passes both checks of [validateFiles]. *)
Definition acceptable (supportedFormats : list string) (maxFileSize : Z) (file : File) : bool :=
  existsb (String.eqb (extension_of (file_name file))) supportedFormats &&
  negb (file_size file >? maxFileSize * 1024 * 1024).

(** What [validateFiles] tells [setError] about a file that it drops. *)
Definition rejection_message (supportedFormats : list string) (maxFileSize : Z) (file : File)
  : string :=
  if existsb (String.eqb (extension_of (file_name file))) supportedFormats
  then too_large_message maxFileSize (file_name file)
  else unsupported_message supportedFormats (extension_of (file_name file)).

(** The value of a decimal digit. *)
Definition digit_value (c : ascii) : option Z :=
  let n := Z.of_N (Ascii.N_of_ascii c) in
  if (48 <=? n) && (n <=? 57) then Some (n - 48) else None.

(** The number that a string of decimal digits denotes, read from the
    left after [acc]. *)
Fixpoint decimal_value (s : string) (acc : Z) : option Z :=
  match s with
  | EmptyString => Some acc
  | String c s' =>
      match digit_value c with
      | Some d => decimal_value s' (10 * acc + d)
      | None => None
      end
  end.

(** A natural number as it is written: at least one digit, and no zero
    in front of another digit. *)
Definition read_natural (s : string) : option Z :=
  match s with
  | EmptyString => None
  | String c rest =>
      if Ascii.eqb c "0"%char && negb (String.eqb rest "") then None
      else decimal_value s 0
  end.

(** A text at its first point: what is before it and what is after it. *)
Fixpoint split_point (s : string) : option (string * string) :=
  match s with
  | EmptyString => None
  | String c s' =>
      if Ascii.eqb c "."%char then Some ("", s')
      else match split_point s' with
           | Some (whole, fraction) => Some (String c whole, fraction)
           | None => None
           end
  end.

(** A text with two decimals, such as 10.00 or 0.13, read as a number of
    hundredths (1000, 13): a natural number, a point and exactly two
    digits. *)
Definition read_two_decimals (text : string) : option Z :=
  match split_point text with
  | Some (whole, String a (String b EmptyString)) =>
      match read_natural whole, digit_value a, digit_value b with
      | Some w, Some x, Some y => Some (100 * w + 10 * x + y)
      | _, _, _ => None
      end
  | _ => None
  end.

(** Every character of a string passes a test. *)
Fixpoint all_chars (p : ascii -> bool) (s : string) : bool :=
  match s with
  | EmptyString => true
  | String c s' => p c && all_chars p s'
  end.

(** The test of [.]: not a line terminator. *)
Definition no_terminator (c : ascii) : bool :=
  negb (Ascii.eqb c "010"%char || Ascii.eqb c "013"%char).

(** The test of [[^#&?]]. *)
Definition no_delimiter (c : ascii) : bool :=
  negb (Ascii.eqb c "#"%char || Ascii.eqb c "&"%char || Ascii.eqb c "?"%char).

(** Neither [/] nor [?]: every alternative of the pattern of
    [getYoutubeVideoId] ends with one of the two. *)
Definition no_slash (c : ascii) : bool :=
  negb (Ascii.eqb c "/"%char || Ascii.eqb c "?"%char).

(** The pattern of [getYoutubeVideoId] after its leading [.*]. *)
Definition regExp_rest : RegExp.regex :=
  match regExp with
  | RegExp.Seq _ r => r
  | r => r
  end.

(** Its alternatives (group 1), and what follows them. *)
Definition regExp_alternatives : RegExp.regex :=
  match regExp_rest with
  | RegExp.Seq r _ => r
  | r => r
  end.

Definition regExp_tail : RegExp.regex :=
  match regExp_rest with
  | RegExp.Seq _ r => r
  | r => r
  end.

End Samples.

(** * Properties *)

Import JS Envelope Effects MockApiHandler Api UploadSection Samples.

(** ** Strings *)

Lemma starts_with_app (p s : string) : starts_with p (p +:+ s) = true.
Proof.
  induction p as [|c p IH]; simpl; [reflexivity|].
  rewrite Ascii.eqb_refl. exact IH.
Qed.

Lemma includes_prefix (s sub : string) : starts_with sub s = true -> includes s sub = true.
Proof. intros H. destruct s; simpl; rewrite H; reflexivity. Qed.

Lemma includes_app (before sub after : string) :
  includes (before +:+ sub +:+ after) sub = true.
Proof.
  induction before as [|c before IH].
  - change (includes (sub +:+ after) sub = true).
    apply includes_prefix, starts_with_app.
  - simpl. rewrite IH. apply orb_true_r.
Qed.

(** ** The response envelope *)

Section ResponseEnvelope.

(** [handleResponse] returns unless the body cannot be read, or a failed
    request has the JSON body [null]. *)
Lemma handleResponse_returns (response : Response) :
  (exists env, handleResponse response = Ret env) <->
  (exists body, read_body response = Ret body /\
     (ok response = false -> isJson response = true ->
      body <> VNull /\ body <> VUndefined)).
Proof.
  unfold handleResponse. split.
  - intros [env H]. destruct (read_body response) as [body|e]; [|discriminate].
    exists body. split; [reflexivity|]. intros Hok Hj.
    simpl in H. rewrite Hok, Hj in H. simpl in H.
    destruct body; simpl in H; try discriminate; split; discriminate.
  - intros [body [Hb Hn]]. rewrite Hb. simpl.
    destruct (ok response); simpl; [eauto|].
    destruct (isJson response); [|eauto].
    destruct (Hn eq_refl eq_refl) as [Hnull Hundef].
    destruct body; simpl; eauto; congruence.
Qed.

(** C4, as the code has it: whenever [handleResponse] returns, the
    envelope has exactly one of [data] and [error]; on a status that is
    not ok it is an error, which is the [message] field of the body when
    the content type is JSON and that field is truthy (so neither absent
    nor empty, zero, false or null), and "An error occurred" in every
    other case; on an ok status it is the body as data. *)
Theorem handleResponse_exactly_one (response : Response) (env : ApiResponse) :
  handleResponse response = Ret env ->
  exactly_one env /\
  (ok response = true ->
     exists body, read_body response = Ret body /\ env = with_data body) /\
  (ok response = false -> isJson response = false -> env = with_error generic_error) /\
  (ok response = false -> isJson response = true ->
     exists body message,
       json response = Ret body /\ get_prop body "message" = Ret message /\
       env = with_error (if truthy message then message else generic_error)).
Proof.
  unfold handleResponse, read_body. intros H.
  destruct (isJson response) eqn:Hj, (ok response) eqn:Hok; simpl in H.
  - destruct (json response) as [body|e]; simpl in H; [|discriminate].
    injection H as <-. split; [left; simpl; eauto|].
    split; [eauto|]. split; discriminate.
  - destruct (json response) as [body|e]; simpl in H; [|discriminate].
    destruct (get_prop body "message") as [message|e] eqn:Hm; simpl in H; [|discriminate].
    injection H as <-. split; [right; simpl; eauto|].
    split; [discriminate|]. split; [discriminate|]. eauto.
  - destruct (text response) as [s|e]; simpl in H; [|discriminate].
    injection H as <-. split; [left; simpl; eauto|].
    split; [eauto|]. split; discriminate.
  - destruct (text response) as [s|e]; simpl in H; [|discriminate].
    injection H as <-. split; [right; simpl; eauto|].
    split; [discriminate|]. split; [reflexivity|]. discriminate.
Qed.

Lemma handleResponse_exactly_one_witness :
  let response := json_response false (VObj [("message", VStr "Quota exceeded")]) in
  handleResponse response = Ret (with_error (VStr "Quota exceeded")) /\
  exactly_one (with_error (VStr "Quota exceeded")).
Proof.
  split; [reflexivity|].
  apply (handleResponse_exactly_one
           (json_response false (VObj [("message", VStr "Quota exceeded")]))).
  reflexivity.
Defined.

(** C4 as stated fails: the body of a failed request has a [message]
    field, the empty string, and the error is the generic string. *)
Lemma handleResponse_empty_message :
  let body := VObj [("message", VStr "")] in
  lookup_field "message" [("message", VStr "")] = Some (VStr "") /\
  handleResponse (json_response false body) = Ret (with_error (VStr "An error occurred")) /\
  handleResponse (json_response false body) <> Ret (with_error (VStr "")).
Proof. repeat split. discriminate. Qed.

End ResponseEnvelope.

(** ** The mock layer *)

Section MockLayer.

Lemma hundredths_nearest (num den : Z) :
  0 < den ->
  2 * Z.abs (100 * num - hundredths num den * den) <= den.
Proof.
  intros Hden. unfold hundredths.
  pose proof (Z.mul_div_le (200 * num + den) (2 * den) ltac:(lia)).
  pose proof (Z.mul_succ_div_gt (200 * num + den) (2 * den) ltac:(lia)).
  lia.
Qed.

(** Reading back what [toFixed] wrote: the reader of the vocabulary and
    the numerals of [String] are inverse to each other. *)

Lemma decimal_value_of_uint_acc (d : Decimal.uint) (acc : positive) :
  decimal_value (NilEmpty.string_of_uint d) (Zpos acc) = Some (Zpos (Pos.of_uint_acc d acc)).
Proof.
  revert acc. induction d as [|d IH|d IH|d IH|d IH|d IH|d IH|d IH|d IH|d IH|d IH];
    intros acc; [reflexivity|..];
    cbn [NilEmpty.string_of_uint decimal_value Pos.of_uint_acc];
    change (digit_value _) with (Some 0) || change (digit_value _) with (Some 1) ||
    change (digit_value _) with (Some 2) || change (digit_value _) with (Some 3) ||
    change (digit_value _) with (Some 4) || change (digit_value _) with (Some 5) ||
    change (digit_value _) with (Some 6) || change (digit_value _) with (Some 7) ||
    change (digit_value _) with (Some 8) || change (digit_value _) with (Some 9);
    cbv iota beta; rewrite <- IH; f_equal; lia.
Qed.

Lemma decimal_value_of_uint (d : Decimal.uint) :
  decimal_value (NilEmpty.string_of_uint d) 0 = Some (Z.of_N (Pos.of_uint d)).
Proof.
  induction d as [|d IH|d IH|d IH|d IH|d IH|d IH|d IH|d IH|d IH|d IH];
    [reflexivity|exact IH|..];
    cbn [NilEmpty.string_of_uint decimal_value Pos.of_uint];
    exact (decimal_value_of_uint_acc d _).
Qed.

Lemma split_point_of_uint (d : Decimal.uint) (fraction : string) :
  split_point (NilEmpty.string_of_uint d +:+ String "." fraction) =
    Some (NilEmpty.string_of_uint d, fraction).
Proof.
  induction d as [|d IH|d IH|d IH|d IH|d IH|d IH|d IH|d IH|d IH|d IH];
    [reflexivity|..];
    cbn [NilEmpty.string_of_uint];
    match goal with
    | |- split_point (String ?c ?s +:+ ?t) = _ =>
        change (split_point (String c s +:+ t))
          with (match split_point (s +:+ t) with
                | Some (whole, fraction) => Some (String c whole, fraction)
                | None => None
                end)
    end;
    by rewrite IH.
Qed.

(** The numeral of a positive number, as [String] writes it. *)
Lemma string_of_Z_pos (p : positive) :
  string_of_Z (Zpos p) = NilEmpty.string_of_uint (Pos.to_uint p).
Proof.
  unfold string_of_Z. change (N.to_uint (Z.to_N (Z.pos p))) with (Pos.to_uint p).
  pose proof (DecimalPos.Unsigned.to_uint_nonnil p). by destruct (Pos.to_uint p).
Qed.

Lemma to_uint_no_leading_zero (p : positive) (d : Decimal.uint) :
  Pos.to_uint p <> Decimal.D0 d.
Proof.
  intros Hp.
  pose proof (DecimalPos.Unsigned.to_of (Pos.to_uint p)) as Hnorm.
  rewrite DecimalPos.Unsigned.of_to in Hnorm.
  change (N.to_uint (N.pos p)) with (Pos.to_uint p) in Hnorm.
  rewrite Hp in Hnorm. unfold Decimal.unorm in Hnorm. cbn [Decimal.nzhead] in Hnorm.
  destruct (Decimal.nzhead d) eqn:Hd; try discriminate.
  - apply (DecimalPos.Unsigned.to_uint_nonzero p). by rewrite Hp, Hnorm.
  - by apply DecimalFacts.nzhead_nonzero in Hd.
Qed.

Lemma read_natural_string_of_Z (n : Z) :
  0 <= n -> read_natural (string_of_Z n) = Some n.
Proof.
  intros Hn. destruct n as [|p|p]; [reflexivity| |lia].
  rewrite string_of_Z_pos.
  pose proof (decimal_value_of_uint (Pos.to_uint p)) as Hvalue.
  rewrite DecimalPos.Unsigned.of_to in Hvalue.
  pose proof (to_uint_no_leading_zero p) as Hzero.
  pose proof (DecimalPos.Unsigned.to_uint_nonnil p) as Hnil.
  destruct (Pos.to_uint p) as [|d|d|d|d|d|d|d|d|d|d]; try done.
  by destruct (Hzero d).
Qed.

(** The two digits that [toFixed] writes after the point. *)
Lemma two_digits (m : Z) :
  0 <= m < 100 ->
  exists a b : ascii,
    (if m <? 10 then "0" else "") +:+ string_of_Z m = String a (String b "") /\
    digit_value a = Some (m / 10) /\ digit_value b = Some (m mod 10).
Proof.
  intros Hm.
  assert (Hk : exists k : nat, (k < 100)%nat /\ m = Z.of_nat k)
    by (exists (Z.to_nat m); lia).
  destruct Hk as (k & Hk & ->). clear Hm.
  do 100 (destruct k as [|k]; [eexists _, _; repeat split; reflexivity|]).
  lia.
Qed.

(** What [toFixed] writes reads back as the number of hundredths. *)
Lemma read_two_decimals_toFixed (n : Z) :
  0 <= n -> read_two_decimals (two_decimals n) = Some n.
Proof.
  intros Hn. unfold two_decimals, read_two_decimals.
  assert (Hwhole : 0 <= n / 100) by (apply Z.div_pos; lia).
  assert (Hfrac : 0 <= n mod 100 < 100) by (apply Z.mod_pos_bound; lia).
  destruct (two_digits (n mod 100) Hfrac) as (a & b & Htext & Ha & Hb).
  assert (Hsplit : forall fraction,
            split_point (string_of_Z (n / 100) +:+ "." +:+ fraction) =
              Some (string_of_Z (n / 100), fraction)).
  { intros fraction. destruct (n / 100) as [|p|p] eqn:Hq; [reflexivity| |lia].
    rewrite string_of_Z_pos. apply split_point_of_uint. }
  rewrite Hsplit, Htext, (read_natural_string_of_Z _ Hwhole), Ha, Hb.
  f_equal. pose proof (Z.div_mod n 100). pose proof (Z.div_mod (n mod 100) 10). lia.
Qed.

Ltac written_as D :=
  exists D; split; [reflexivity|]; split; [discriminate|];
  let Hk := fresh in intros Hk ?; first [reflexivity | by destruct Hk].

Lemma digit_value_cases (c : ascii) (k : Z) :
  digit_value c = Some k ->
  0 <= k <= 9 /\
  exists digit : Decimal.uint -> Decimal.uint,
    (forall d, NilEmpty.string_of_uint (digit d) = String c (NilEmpty.string_of_uint d)) /\
    (forall d, digit d <> Decimal.Nil) /\
    (k <> 0 -> forall d, Decimal.nzhead (digit d) = digit d).
Proof.
  destruct c as [[] [] [] [] [] [] [] []]; try discriminate; intros [= <-];
    (split; [lia|]);
    first [ written_as Decimal.D0 | written_as Decimal.D1 | written_as Decimal.D2
          | written_as Decimal.D3 | written_as Decimal.D4 | written_as Decimal.D5
          | written_as Decimal.D6 | written_as Decimal.D7 | written_as Decimal.D8
          | written_as Decimal.D9 ].
Qed.

Lemma digit_value_inj (a b : ascii) (k : Z) :
  digit_value a = Some k -> digit_value b = Some k -> a = b.
Proof.
  destruct a as [[] [] [] [] [] [] [] []]; try discriminate; intros [= <-];
    destruct b as [[] [] [] [] [] [] [] []]; try discriminate; intros [=]; reflexivity.
Qed.

(** A string of digits is a numeral. *)
Lemma decimal_value_numeral (s : string) (acc v : Z) :
  decimal_value s acc = Some v -> exists d, s = NilEmpty.string_of_uint d.
Proof.
  revert acc. induction s as [|c s IH]; intros acc H; [by exists Decimal.Nil|].
  cbn [decimal_value] in H. destruct (digit_value c) as [k|] eqn:Hc; [|discriminate].
  destruct (IH _ H) as [d ->].
  destruct (digit_value_cases c k Hc) as (_ & digit & Hdigit & _).
  exists (digit d). by rewrite Hdigit.
Qed.

(** A natural number is read from one text only, the one that [String]
    writes. *)
Lemma read_natural_written (s : string) (n : Z) :
  read_natural s = Some n -> 0 <= n /\ s = string_of_Z n.
Proof.
  unfold read_natural. destruct s as [|c rest]; [discriminate|].
  destruct (Ascii.eqb c "0" && negb (String.eqb rest "")) eqn:Hzero; [discriminate|].
  intros H. cbn [decimal_value] in H.
  destruct (digit_value c) as [k|] eqn:Hc; [|discriminate].
  destruct (decimal_value_numeral _ _ _ H) as [d ->].
  destruct (digit_value_cases c k Hc) as (Hk & digit & Hdigit & Hnil & Hhead).
  assert (Hvalue : decimal_value (NilEmpty.string_of_uint (digit d)) 0 = Some n)
    by (rewrite Hdigit; cbn [decimal_value]; by rewrite Hc).
  rewrite decimal_value_of_uint in Hvalue. injection Hvalue as <-.
  split; [lia|]. rewrite <- Hdigit.
  assert (Hnorm : Decimal.unorm (digit d) = digit d).
  { destruct (Z.eq_dec k 0) as [->|Hk0].
    - assert (c = "0"%char) as -> by (by apply (digit_value_inj c "0" 0)).
      rewrite Ascii.eqb_refl in Hzero. cbn [andb] in Hzero.
      apply negb_false_iff, String.eqb_eq in Hzero.
      destruct d; try discriminate.
      assert (Hd : NilEmpty.string_of_uint (digit Decimal.Nil) =
                   NilEmpty.string_of_uint (Decimal.D0 Decimal.Nil))
        by (by rewrite Hdigit).
      apply (f_equal NilEmpty.uint_of_string) in Hd. rewrite !NilEmpty.usu in Hd.
      by injection Hd as ->.
    - unfold Decimal.unorm. rewrite (Hhead Hk0).
      specialize (Hnil d). by destruct (digit d). }
  pose proof (DecimalPos.Unsigned.to_of (digit d)) as Hto. rewrite Hnorm in Hto.
  assert (Hwritten : forall m : N, string_of_Z (Z.of_N m) = NilZero.string_of_uint (N.to_uint m))
    by (by intros []).
  rewrite Hwritten, Hto. specialize (Hnil d). by destruct (digit d).
Qed.

Lemma split_point_spec (text whole fraction : string) :
  split_point text = Some (whole, fraction) -> text = whole +:+ "." +:+ fraction.
Proof.
  revert whole. induction text as [|c text IH]; intros whole; [discriminate|].
  cbn [split_point]. destruct (Ascii.eqb c ".") eqn:Hc.
  - apply Ascii.eqb_eq in Hc as ->. by intros [= <- <-].
  - destruct (split_point text) as [[w f]|]; [|discriminate].
    intros [= <- <-]. by rewrite (IH w eq_refl).
Qed.

(** A number of hundredths is read from one text only, the one that
    [toFixed] writes. *)
Lemma read_two_decimals_written (text : string) (h : Z) :
  read_two_decimals text = Some h -> 0 <= h /\ text = two_decimals h.
Proof.
  unfold read_two_decimals.
  destruct (split_point text) as [[whole fraction]|] eqn:Hsplit; [|discriminate].
  destruct fraction as [|a [|b [|? ?]]]; try discriminate.
  destruct (read_natural whole) as [w|] eqn:Hw; [|discriminate].
  destruct (digit_value a) as [x|] eqn:Ha; [|discriminate].
  destruct (digit_value b) as [y|] eqn:Hb; [|discriminate].
  intros [= <-].
  apply read_natural_written in Hw as [Hw0 ->].
  destruct (digit_value_cases a x Ha) as [Hx _].
  destruct (digit_value_cases b y Hb) as [Hy _].
  split; [lia|].
  rewrite (split_point_spec _ _ _ Hsplit). unfold two_decimals.
  assert (Hdiv : (100 * w + 10 * x + y) / 100 = w) by (symmetry; apply Z.div_unique with (10 * x + y); lia).
  assert (Hmod : (100 * w + 10 * x + y) mod 100 = 10 * x + y)
    by (symmetry; apply Z.mod_unique with w; lia).
  rewrite Hdiv, Hmod.
  destruct (two_digits (10 * x + y) ltac:(lia)) as (a' & b' & -> & Ha' & Hb').
  assert (Hx' : (10 * x + y) / 10 = x) by (symmetry; apply Z.div_unique with y; lia).
  assert (Hy' : (10 * x + y) mod 10 = y) by (symmetry; apply Z.mod_unique with x; lia).
  rewrite Hx' in Ha'. rewrite Hy' in Hb'.
  by rewrite (digit_value_inj a a' x Ha Ha'), (digit_value_inj b b' y Hb Hb').
Qed.

Example ticks_of_upload :
  map snd (ticks 200 5 20) =
    map (fun p => OnProgress (VNum p))
      [5; 10; 15; 20; 25; 30; 35; 40; 45; 50; 55; 60; 65; 70; 75; 80; 85; 90; 95; 100] /\
  map fst (ticks 200 5 20) =
    [200; 400; 600; 800; 1000; 1200; 1400; 1600; 1800; 2000; 2200; 2400; 2600; 2800;
     3000; 3200; 3400; 3600; 3800; 4000].
Proof. split; reflexivity. Qed.

Example ten_megabytes : toFixed2 (file_size clip_mp4) (1024 * 1024) +:+ " MB" = "10.00 MB".
Proof. reflexivity. Qed.

(** A tie goes up: 131072 bytes are 0.125 MB, shown as 0.13. *)
Example toFixed2_tie : toFixed2 131072 (1024 * 1024) = "0.13".
Proof. reflexivity. Qed.

(** C6: for every file, [mockUploadVideo] runs its timer twenty times, 200
    ms apart, the counter going 5, 10, ..., 100 and [onProgress] (when
    there is one) being called with each value; 500 ms after the last run
    it resolves with a new record that has the name of the file, the
    status "completed", and that is the new first element of the mock
    video list. The size of the record is a text with two decimals
    followed by " MB": read as a number of hundredths [h], it is the
    number of hundredths of a megabyte nearest to the size of the file,
    the larger one when two are as near, and no other text reads as [h].
    The size of a file is a number of bytes from 0 to 2^53 - 1. *)
Theorem mockUploadVideo_resolves (fuel : nat) (amb : ambient) (file : File)
    (onProgress : bool) (st : store) :
  (20 <= fuel)%nat ->
  exists (l : positive) (v : VideoData) (st' : store),
    mockUploadVideo fuel amb file onProgress st =
      Some (Fulfilled 4500 l, (if onProgress then ticks 200 5 20 else []), st') /\
    objects st !! l = None /\
    objects st' = <[l := v]> (objects st) /\
    arrays st' !! mockVideos = cons l <$> arrays st !! mockVideos /\
    vd_name v = file_name file /\
    vd_status v = completed /\
    (0 <= file_size file < 2 ^ 53 ->
     exists (text : string) (h : Z),
       vd_size v = text +:+ " MB" /\
       read_two_decimals text = Some h /\
       2 * (h * (1024 * 1024) - 100 * file_size file) <= 1024 * 1024 /\
       2 * (100 * file_size file - h * (1024 * 1024)) < 1024 * 1024 /\
       forall text' : string, read_two_decimals text' = Some h -> text' = text).
Proof.
  intros Hfuel.
  do 20 (destruct fuel as [|fuel]; [lia|]). clear Hfuel.
  exists (fresh (dom (objects st))).
  eexists (mkVideoData _ _ _ _ _ _ _ _ _), _.
  split.
  { unfold mockUploadVideo.
    cbn [setInterval mockUploadVideo_tick Z.add Pos.add Pos.succ Z.geb Z.compare
         Pos.compare Pos.compare_cont].
    destruct onProgress; reflexivity. }
  split; [apply not_elem_of_dom, is_fresh|].
  split; [reflexivity|].
  split; [apply lookup_alter_eq|].
  split; [reflexivity|]. split; [reflexivity|].
  intros [Hsize _]. cbn [vd_size]. unfold toFixed2.
  set (h := hundredths (file_size file) (1024 * 1024)).
  assert (Hh : 0 <= h) by (apply Z.div_pos; lia).
  exists (two_decimals h), h.
  split; [reflexivity|]. split; [by apply read_two_decimals_toFixed|].
  unfold h, hundredths.
  pose proof (Z.mul_div_le (200 * file_size file + 1024 * 1024) (2 * (1024 * 1024))
                ltac:(lia)).
  pose proof (Z.mul_succ_div_gt (200 * file_size file + 1024 * 1024) (2 * (1024 * 1024))
                ltac:(lia)).
  split; [lia|]. split; [lia|].
  intros text' Hread. by apply read_two_decimals_written in Hread as [_ ->].
Qed.

Lemma mockUploadVideo_resolves_witness :
  (20 <= 20)%nat /\
  0 <= file_size clip_mp4 < 2 ^ 53 /\
  exists (l : positive) (v : VideoData) (st' : store),
    mockUploadVideo 20 sample_ambient clip_mp4 true initial_store =
      Some (Fulfilled 4500 l, ticks 200 5 20, st') /\
    objects initial_store !! l = None /\
    objects st' = <[l := v]> (objects initial_store) /\
    arrays st' !! mockVideos = cons l <$> arrays initial_store !! mockVideos /\
    vd_name v = "clip.mp4" /\
    vd_status v = completed /\
    vd_size v = "10.00 MB".
Proof.
  assert (Hsize : 0 <= file_size clip_mp4 < 2 ^ 53) by (cbn; lia).
  split; [lia|]. split; [exact Hsize|].
  destruct (mockUploadVideo_resolves 20 sample_ambient clip_mp4 true initial_store
              (Nat.le_refl 20))
    as (l & v & st' & Hrun & Hfresh & Hobjs & Harr & Hname & Hstatus & Htext).
  destruct (Htext Hsize) as (text & h & Hv & Hread & Hlow & Hhigh & Honly).
  assert (Hh : h = 1000) by (cbn in Hlow, Hhigh; lia).
  rewrite Hh in Honly.
  exists l, v, st'. repeat (split; [assumption|]).
  by rewrite Hv, <- (Honly "10.00" eq_refl).
Defined.



(** The copy is shallow: a record changed through the copy is changed in
    the mock video list as well. *)
Lemma mockGetUserVideos_shares_records :
  let '(_, st') := mockGetUserVideos initial_store in
  vd_status <$> objects (mutate_object 3 (set_status completed) st') !! 3%positive
    = Some completed /\
  vd_status <$> objects initial_store !! 3%positive = Some failed.
Proof. split; reflexivity. Qed.

Lemma find_none_all {A : Type} (f : A -> bool) (xs : list A) :
  (forall x, x ∈ xs -> f x = false) -> List.find f xs = None.
Proof.
  induction xs as [|x xs IH]; intros H; simpl; [reflexivity|].
  rewrite (H x) by left. apply IH. intros y Hy. apply H. by right.
Qed.

(** C10: when no record of the mock video list has the id [videoId],
    the promise of [mockProcessVideo] is rejected at once with the message
    "Video not found", [onProgress] is not called and the store is what it
    was. *)
Theorem mockProcessVideo_not_found (fuel : nat) (videoId : string)
    (platform : option string) (onProgress : bool) (st : store) :
  (forall l v, (l, v) ∈ read_array mockVideos st -> vd_id v <> videoId) ->
  mockProcessVideo fuel videoId platform onProgress st =
    Some (Rejected 0 (ErrorObj "Video not found"), [], st).
Proof.
  intros H. unfold mockProcessVideo, find_video.
  rewrite find_none_all; [reflexivity|].
  intros [l v] Hin. simpl. apply String.eqb_neq. eauto.
Qed.

Lemma mockProcessVideo_not_found_witness :
  (forall l v, (l, v) ∈ read_array mockVideos initial_store -> vd_id v <> "42") /\
  mockProcessVideo 0 "42" (Some "TikTok") true initial_store =
    Some (Rejected 0 (ErrorObj "Video not found"), [], initial_store).
Proof.
  assert (H : forall l v, (l, v) ∈ read_array mockVideos initial_store -> vd_id v <> "42").
  { intros l v Hin. vm_compute in Hin.
    repeat (apply elem_of_cons in Hin as [Hin|Hin]; [injection Hin as -> ->; discriminate|]).
    by apply elem_of_nil in Hin. }
  split; [exact H|].
  exact (mockProcessVideo_not_found 0 "42" (Some "TikTok") true initial_store H).
Defined.

(** The other path, for comparison: a record that is found is processed
    in ten runs of the timer. *)
Example mockProcessVideo_found :
  match mockProcessVideo 10 "2" None true initial_store with
  | Some (Fulfilled t _, effs, st') =>
      t = 3500 /\ effs = ticks 300 10 10 /\
      (vd_status <$> objects st' !! 2%positive) = Some completed /\
      (vd_platform <$> objects st' !! 2%positive) = Some "YouTube"
  | _ => False
  end.
Proof. vm_compute. repeat split. Qed.

End MockLayer.

(** ** The operations, up to their [return] *)

Section Operations.

Ltac reduce := cbn -[get_prop truthy handleResponse mockUploadYoutubeVideo].

Ltac run_body :=
  unfold processVideo, generateClips, uploadYoutubeVideo, uploadYoutubeVideo_try,
    fetch, start_polling, try_catch, and_then, await, emit, update, ret;
  reduce.

(** The fallback never starts polling. *)
Ltac no_job_from_mock :=
  let t := fresh "t" in
  let l := fresh "l" in
  let e := fresh "e" in
  let st1 := fresh "st" in
  let ticks := fresh "ticks" in
  destruct (mockUploadYoutubeVideo _ _ _ _ _) as [[[[t l|t e] ticks] st1]|];
  [destruct (objects st1 !! l)| |]; discriminate.

Lemma get_prop_truthy (d : value) (name : string) :
  truthy d = true -> get_prop d name = Ret (prop d name).
Proof. unfold prop. destruct d; simpl; try discriminate; reflexivity. Qed.

Lemma processVideo_polling net videoId settings onProgress j effs r :
  processVideo net videoId settings onProgress None = (Some j, effs, r) ->
  onProgress = true /\ job_of j = ProcessVideo videoId /\
  r = Ret (with_data (processing_placeholder (VStr videoId))).
Proof.
  run_body.
  destruct (net (VideoProcess videoId settings)) as [response|e]; [|discriminate].
  destruct (handleResponse response) as [res|e]; [|discriminate].
  destruct (field_truthy (error res) || negb (field_truthy (data res))); [discriminate|].
  destruct (get_prop _ _); [|discriminate].
  destruct onProgress; [|discriminate].
  cbn. intros H. injection H as <- <- <-. done.
Qed.

Lemma generateClips_polling net videoId settings onProgress j effs r :
  generateClips net videoId settings onProgress None = (Some j, effs, r) ->
  onProgress = true /\ job_of j = GenerateClips videoId /\
  r = Ret (with_data (VArr [])).
Proof.
  run_body.
  destruct (net (ClipsGenerate videoId settings)) as [response|e]; [|discriminate].
  destruct (handleResponse response) as [res|e]; [|discriminate].
  destruct (field_truthy (error res) || negb (field_truthy (data res))); [discriminate|].
  destruct (get_prop _ _); [|discriminate].
  destruct onProgress; [|discriminate].
  cbn. intros H. injection H as <- <- <-. done.
Qed.

Lemma uploadYoutubeVideo_polling fuel amb net url onProgress quality st j st' effs r :
  uploadYoutubeVideo fuel amb net url onProgress quality st = Some (Some j, st', effs, r) ->
  onProgress = true /\ job_of j = UploadYoutubeVideo /\ st' = st /\
  effs = [OnProgress (VNum 5); Fetch (YoutubeDownload url (default "720p" quality));
          OnProgress (VNum 10)] /\
  r = Ret (with_data (processing_placeholder (jobId j))).
Proof.
  run_body.
  destruct onProgress; reduce;
    (destruct (net (YoutubeDownload _ _)) as [response|e]; reduce; [|no_job_from_mock]);
    (destruct (handleResponse response) as [res|e]; reduce; [|no_job_from_mock]);
    (destruct (field_truthy (error res) || negb (field_truthy (data res))); reduce;
       [discriminate|]);
    (destruct (get_prop _ _) as [jid|e]; reduce; [|no_job_from_mock]).
  - intros H. injection H as <- <- <- <-. done.
  - destruct (net (JobResult jid)); reduce; [discriminate|no_job_from_mock].
Qed.

(** Without a callback no operation starts polling, whatever the server does. *)
Lemma no_callback_never_polls (net : endpoint -> result Response) :
  (forall videoId settings, (processVideo net videoId settings false None).1.1 = None) /\
  (forall videoId settings, (generateClips net videoId settings false None).1.1 = None) /\
  (forall fuel amb url quality st j st' effs r,
     uploadYoutubeVideo fuel amb net url false quality st = Some (j, st', effs, r) ->
     j = None).
Proof.
  split; [|split].
  - intros videoId settings.
    destruct (processVideo net videoId settings false None) as [[[j|] effs] r] eqn:H; [|done].
    by destruct (processVideo_polling _ _ _ _ _ _ _ H).
  - intros videoId settings.
    destruct (generateClips net videoId settings false None) as [[[j|] effs] r] eqn:H; [|done].
    by destruct (generateClips_polling _ _ _ _ _ _ _ H).
  - intros fuel amb url quality st [j|] st' effs r H; [|done].
    by destruct (uploadYoutubeVideo_polling _ _ _ _ _ _ _ _ _ _ _ H).
Qed.

(** C1, as the code has it: when the submission succeeds and the caller
    has supplied no [onProgress], [processVideo] returns the "processing"
    placeholder and [generateClips] the empty clip list, after the
    submission alone and without starting to poll; [uploadYoutubeVideo]
    does not start to poll either, but it requests the result resource of
    the job and returns what [handleResponse] makes of the answer. *)
Theorem without_callback_no_polling (net : endpoint -> result Response)
    (response : Response) (d : value) :
  handleResponse response = Ret (with_data d) ->
  truthy d = true ->
  (forall videoId settings,
     net (VideoProcess videoId settings) = Ret response ->
     processVideo net videoId settings false None =
       (None, [Fetch (VideoProcess videoId settings)],
        Ret (with_data (processing_placeholder (VStr videoId))))) /\
  (forall videoId settings,
     net (ClipsGenerate videoId settings) = Ret response ->
     generateClips net videoId settings false None =
       (None, [Fetch (ClipsGenerate videoId settings)], Ret (with_data (VArr [])))) /\
  (forall fuel amb url quality st final,
     net (YoutubeDownload url (default "720p" quality)) = Ret response ->
     net (JobResult (prop d "jobId")) = Ret final ->
     uploadYoutubeVideo fuel amb net url false quality st =
       Some (None, st,
             [Fetch (YoutubeDownload url (default "720p" quality));
              Fetch (JobResult (prop d "jobId"))],
             handleResponse final)).
Proof.
  intros Hr Hd. split; [|split].
  - intros videoId settings Hnet. run_body. rewrite Hnet, Hr. reduce.
    rewrite Hd. reduce. by rewrite (get_prop_truthy d).
  - intros videoId settings Hnet. run_body. rewrite Hnet, Hr. reduce.
    rewrite Hd. reduce. by rewrite (get_prop_truthy d).
  - intros fuel amb url quality st final Hnet Hfinal. run_body. rewrite Hnet. reduce.
    rewrite Hr. reduce. rewrite Hd. reduce. rewrite (get_prop_truthy d) by done. reduce.
    by rewrite Hfinal.
Qed.

Lemma without_callback_no_polling_witness :
  let accepted := VObj [("jobId", VStr "job-1")] in
  handleResponse (json_response true accepted) = Ret (with_data accepted) /\
  truthy accepted = true /\
  processVideo (accepting finished_video) "v1" VNull false None =
    (None, [Fetch (VideoProcess "v1" VNull)],
     Ret (with_data (processing_placeholder (VStr "v1")))) /\
  generateClips (accepting finished_video) "v1" VNull false None =
    (None, [Fetch (ClipsGenerate "v1" VNull)], Ret (with_data (VArr []))) /\
  uploadYoutubeVideo 0 sample_ambient (accepting finished_video)
      "https://youtu.be/dQw4w9WgXcQ" false None initial_store =
    Some (None, initial_store,
          [Fetch (YoutubeDownload "https://youtu.be/dQw4w9WgXcQ" "720p");
           Fetch (JobResult (VStr "job-1"))],
          Ret (with_data finished_video)).
Proof.
  intros accepted.
  destruct (without_callback_no_polling (accepting finished_video)
              (json_response true accepted) accepted eq_refl eq_refl) as (Hp & Hg & Hu).
  split; [reflexivity|]. split; [reflexivity|].
  split; [exact (Hp "v1" VNull eq_refl)|].
  split; [exact (Hg "v1" VNull eq_refl)|].
  exact (Hu 0%nat sample_ambient "https://youtu.be/dQw4w9WgXcQ" None initial_store
           (json_response true finished_video) eq_refl eq_refl).
Defined.

(** C1 as stated fails for [uploadYoutubeVideo]: without a callback it
    sends a second request, for the result of the job, and returns the
    finished record of the answer instead of a placeholder. *)
Lemma uploadYoutubeVideo_without_callback_waits :
  uploadYoutubeVideo 0 sample_ambient (accepting finished_video)
      "https://youtu.be/dQw4w9WgXcQ" false None initial_store =
    Some (None, initial_store,
          [Fetch (YoutubeDownload "https://youtu.be/dQw4w9WgXcQ" "720p");
           Fetch (JobResult (VStr "job-1"))],
          Ret (with_data finished_video)) /\
  with_data finished_video <> with_data (processing_placeholder (VStr "job-1")).
Proof. split; [reflexivity|discriminate]. Qed.

(** C5, as the code has it: when the URL does not match the pattern and
    the submission fails (the request is rejected by the transport or its
    answer cannot be read), so that the mock takes over,
    [uploadYoutubeVideo] returns the error "Invalid YouTube URL"; the mock
    calls [onProgress] not once and leaves its store alone, but
    [uploadYoutubeVideo] itself has called a supplied [onProgress] once,
    with 5, before it sent the request. *)
Theorem uploadYoutubeVideo_invalid_url (fuel : nat) (amb : ambient)
    (net : endpoint -> result Response) (youtubeUrl : string) (onProgress : bool)
    (quality : option string) (st : store) (e : thrown) :
  getYoutubeVideoId youtubeUrl = None ->
  failure_of (net (YoutubeDownload youtubeUrl (default "720p" quality))) = Some e ->
  mockUploadYoutubeVideo fuel amb youtubeUrl onProgress st =
    Some (Rejected 0 (ErrorObj "Invalid YouTube URL"), [], st) /\
  exists effs,
    uploadYoutubeVideo fuel amb net youtubeUrl onProgress quality st =
      Some (None, st, effs, Ret (with_error (VStr "Invalid YouTube URL"))) /\
    effs = (if onProgress then [OnProgress (VNum 5)] else []) ++
           [Fetch (YoutubeDownload youtubeUrl (default "720p" quality))] /\
    progress_calls effs = if onProgress then [VNum 5] else [].
Proof.
  intros Hid Hnet.
  assert (Hmock : mockUploadYoutubeVideo fuel amb youtubeUrl onProgress st =
                    Some (Rejected 0 (ErrorObj "Invalid YouTube URL"), [], st)).
  { unfold mockUploadYoutubeVideo. by rewrite Hid. }
  split; [exact Hmock|].
  eexists. split; [|split; [reflexivity|by destruct onProgress]].
  run_body. unfold failure_of in Hnet.
  destruct onProgress; reduce;
    (destruct (net (YoutubeDownload _ _)) as [response|e']; reduce;
       [destruct (handleResponse response); [discriminate|]; reduce|]);
    by rewrite Hmock.
Qed.

Lemma uploadYoutubeVideo_invalid_url_witness :
  getYoutubeVideoId "https://example.org/video.mp4" = None /\
  failure_of (unreachable (YoutubeDownload "https://example.org/video.mp4" "720p")) =
    Some (ErrorObj "Failed to fetch") /\
  mockUploadYoutubeVideo 20 sample_ambient "https://example.org/video.mp4" true initial_store =
    Some (Rejected 0 (ErrorObj "Invalid YouTube URL"), [], initial_store) /\
  exists effs,
    uploadYoutubeVideo 20 sample_ambient unreachable "https://example.org/video.mp4" true
        None initial_store =
      Some (None, initial_store, effs, Ret (with_error (VStr "Invalid YouTube URL"))) /\
    effs = [OnProgress (VNum 5)] ++
           [Fetch (YoutubeDownload "https://example.org/video.mp4" "720p")] /\
    progress_calls effs = [VNum 5].
Proof.
  split; [reflexivity|]. split; [reflexivity|].
  exact (uploadYoutubeVideo_invalid_url 20 sample_ambient unreachable
           "https://example.org/video.mp4" true None initial_store
           (ErrorObj "Failed to fetch") eq_refl eq_refl).
Defined.

(** C5 as stated fails: the URL does not match, the mock is active, an
    error comes back, and [onProgress] has been called, with 5. *)
Lemma onProgress_called_before_validation :
  getYoutubeVideoId "https://example.org/video.mp4" = None /\
  uploadYoutubeVideo 20 sample_ambient unreachable "https://example.org/video.mp4" true
      None initial_store =
    Some (None, initial_store,
          [OnProgress (VNum 5); Fetch (YoutubeDownload "https://example.org/video.mp4" "720p")],
          Ret (with_error (VStr "Invalid YouTube URL"))) /\
  progress_calls
    [OnProgress (VNum 5); Fetch (YoutubeDownload "https://example.org/video.mp4" "720p")]
    <> [].
Proof. split; [reflexivity|]. split; [reflexivity|discriminate]. Qed.

(** The pattern on the URLs of the specification. *)
Example getYoutubeVideoId_short : getYoutubeVideoId "https://youtu.be/dQw4w9WgXcQ" = Some "dQw4w9WgXcQ".
Proof. reflexivity. Qed.

Example getYoutubeVideoId_watch :
  getYoutubeVideoId "https://www.youtube.com/watch?v=dQw4w9WgXcQ&t=42" = Some "dQw4w9WgXcQ".
Proof. reflexivity. Qed.

Example getYoutubeVideoId_short_id : getYoutubeVideoId "https://youtu.be/dQw4" = None.
Proof. reflexivity. Qed.

End Operations.

(** ** The polling callback *)

Section Polling.

Ltac body_unfold :=
  unfold poll_progress, poll_final, poll_request, clearInterval, suspend,
    try_catch, and_then, await, emit, update, ret in *.

Ltac no_poll_fetch Hfetch :=
  let id := fresh "id" in
  let Hid := fresh "Hid" in
  intros id Hid;
  repeat (apply elem_of_cons in Hid as [Hid|Hid];
          [first [discriminate | by apply (Hfetch id)]|]);
  by apply elem_of_nil in Hid.

Lemma progress_calls_app (a b : list effect) :
  progress_calls (a ++ b) = progress_calls a ++ progress_calls b.
Proof. apply omap_app. Qed.

Lemma take_pending_elem n w ps ps' :
  take_pending n w ps = Some ps' -> (n, w) ∈ ps /\ (forall x, x ∈ ps' -> x ∈ ps).
Proof.
  revert ps'. induction ps as [|[m w'] ps IH]; intros ps' H; simpl in H; [discriminate|].
  destruct (m =? n)%nat eqn:E.
  - apply Nat.eqb_eq in E as ->.
    destruct w, w'; try discriminate; injection H as <-; split; try left; intros; by right.
  - destruct (take_pending n w ps) as [qs|] eqn:Hq; [|discriminate].
    injection H as <-. destruct (IH qs eq_refl) as [Hin Hsub]. split; [by right|].
    intros x Hx. apply elem_of_cons in Hx as [->|Hx]; [left|right; auto].
Qed.

(** The answer of a poll request, case by case. *)
Lemma poll_progress_failure j outcome e s :
  failure_of outcome = Some e ->
  poll_progress j outcome s = (s, [ConsoleError e], Ret tt).
Proof.
  unfold failure_of. intros H. body_unfold.
  destruct outcome as [response|e']; simpl.
  - destruct (handleResponse response); [discriminate|]. by injection H as ->.
  - by injection H as ->.
Qed.

Lemma poll_progress_no_data j response r s :
  handleResponse response = Ret r -> field_truthy (data r) = false ->
  poll_progress j (Ret response) s = (s, [], Ret tt).
Proof. intros H1 H2. body_unfold. simpl. rewrite H1, H2. reflexivity. Qed.

Lemma poll_progress_data j response r d s :
  handleResponse response = Ret r -> data r = Some d -> truthy d = true ->
  poll_progress j (Ret response) s =
    if truthy (prop d "completed") then
      if truthy (inline_result j d) then
        (mkPolling false (issued s) (pending s),
         [OnProgress (prop d "progress"); ClearInterval;
          CallbackSettled (Ret (with_data (inline_result j d)))], Ret tt)
      else
        (mkPolling false (S (issued s)) ((issued s, FinalResponse) :: pending s),
         [OnProgress (prop d "progress"); ClearInterval; Fetch (result_endpoint j)], Ret tt)
    else (s, [OnProgress (prop d "progress")], Ret tt).
Proof.
  intros H1 H2 H3. body_unfold. cbn -[get_prop truthy].
  rewrite H1. unfold field_truthy. rewrite H2, H3.
  cbn -[get_prop truthy]. rewrite !(get_prop_truthy d) by done.
  destruct (truthy (prop d "completed")); [|reflexivity].
  unfold inline_result.
  destruct (job_of j); cbn -[get_prop truthy prop]; try reflexivity.
  destruct (truthy (prop d "videoData")); reflexivity.
Qed.

Lemma poll_final_cases outcome s :
  poll_final outcome s =
    (s, [match outcome with
         | Ret videoResponse => CallbackSettled (handleResponse videoResponse)
         | Throw e => ConsoleError e
         end], Ret tt).
Proof. body_unfold. destruct outcome; reflexivity. Qed.

(** The answer of a poll request, whatever it is: the three cases. *)
Lemma poll_progress_cases j outcome s :
  (exists e, failure_of outcome = Some e /\
     poll_progress j outcome s = (s, [ConsoleError e], Ret tt)) \/
  (exists response r, outcome = Ret response /\ handleResponse response = Ret r /\
     field_truthy (data r) = false /\ poll_progress j outcome s = (s, [], Ret tt)) \/
  (exists response r d, outcome = Ret response /\ handleResponse response = Ret r /\
     data r = Some d /\ truthy d = true).
Proof.
  destruct (failure_of outcome) as [e|] eqn:Hf.
  - left. exists e. split; [reflexivity|]. by apply poll_progress_failure.
  - right. destruct outcome as [response|e]; [|discriminate]. simpl in Hf.
    destruct (handleResponse response) as [r|e] eqn:Hr; [|discriminate].
    destruct (field_truthy (data r)) eqn:Ht.
    + right. unfold field_truthy in Ht. destruct (data r) as [d|] eqn:Hd; [|discriminate].
      by exists response, r, d.
    + left. exists response, r. repeat split; try done. by apply (poll_progress_no_data j response r).
Qed.

(** C3, as the code has it. *)
Lemma step_progress_calls j ev s s1 e1 :
  step j ev s = Some (s1, e1) -> progress_calls e1 = reported ev.
Proof.
  destruct ev as [|n outcome|n outcome]; simpl; intros H.
  - destruct (active s); [|discriminate]. injection H as <- <-. reflexivity.
  - destruct (take_pending n ProgressResponse (pending s)) as [ps|]; [|discriminate].
    injection H as H.
    destruct (poll_progress_cases j outcome (mkPolling (active s) (issued s) ps))
      as [(e & Hf & Hp)|[(response & r & -> & Hr & Ht & Hp)|(response & r & d & -> & Hr & Hd & Ht)]].
    + rewrite Hp in H. injection H as <- <-.
      destruct outcome as [response|e']; simpl in *; [|reflexivity].
      destruct (handleResponse response); [discriminate|reflexivity].
    + rewrite Hp in H. injection H as <- <-. by rewrite Hr, Ht.
    + rewrite (poll_progress_data j response r d _ Hr Hd Ht) in H.
      rewrite Hr. unfold field_truthy. rewrite Hd, Ht. simpl.
      destruct (truthy (prop d "completed")); [destruct (truthy (inline_result j d))|];
        injection H as <- <-; reflexivity.
  - destruct (take_pending n FinalResponse (pending s)) as [ps|]; [|discriminate].
    rewrite poll_final_cases in H. injection H as <- <-. by destruct outcome.
Qed.

(** C3, as the code has it: for every job and every sequence of events
    while it is polled, the values handed to [onProgress] by the polling
    callback are the [progress] fields of the answers that carry data, in
    the order in which the answers arrive; nothing is discarded or put
    right, so the values are non-decreasing exactly when the server's
    are. *)
Theorem progress_calls_follow_server (j : job) (evs : list event) (s s' : polling)
    (effs : list effect) :
  run j evs s = Some (s', effs) ->
  progress_calls effs = flat_map reported evs /\
  (nondecreasing (progress_calls effs) <-> nondecreasing (flat_map reported evs)).
Proof.
  intros H. assert (Heq : progress_calls effs = flat_map reported evs).
  { revert s effs H. induction evs as [|ev evs IH]; intros s effs H; simpl in H.
    - by injection H as <- <-.
    - destruct (step j ev s) as [[s1 e1]|] eqn:Hstep; [|discriminate].
      destruct (run j evs s1) as [[s2 e2]|] eqn:Hrun; [|discriminate].
      injection H as <- <-. rewrite progress_calls_app. simpl.
      by rewrite (step_progress_calls _ _ _ _ _ Hstep), (IH _ _ Hrun). }
  split; [exact Heq|]. by rewrite Heq.
Qed.

Lemma progress_calls_follow_server_witness :
  let j := mkJob (ProcessVideo "v1") (VStr "job-1") in
  let evs := in_turn 0 [progress_answer 10 false; progress_answer 60 false;
                        progress_answer 40 false; progress_answer 100 true] in
  let s' := mkPolling false 5 [(4%nat, FinalResponse)] in
  let effs :=
    [Fetch (JobProgress (VStr "job-1")); OnProgress (VNum 10);
     Fetch (JobProgress (VStr "job-1")); OnProgress (VNum 60);
     Fetch (JobProgress (VStr "job-1")); OnProgress (VNum 40);
     Fetch (JobProgress (VStr "job-1")); OnProgress (VNum 100);
     ClearInterval; Fetch (VideoById "v1")] in
  run j evs polling_started = Some (s', effs) /\
  progress_calls effs = [VNum 10; VNum 60; VNum 40; VNum 100] /\
  (nondecreasing (progress_calls effs) <-> nondecreasing (flat_map reported evs)).
Proof.
  intros j evs s' effs. split; [reflexivity|].
  exact (progress_calls_follow_server j evs polling_started s' effs eq_refl).
Defined.

(** C3 as stated fails: the server reports 10, 60, 40, 100 and the
    callback is handed 10, 60, 40, 100, which goes down from 60 to 40, and
    not 10, 60, 60, 100. *)
Lemma regression_is_passed_on :
  match run (mkJob (ProcessVideo "v1") (VStr "job-1"))
          (in_turn 0 [progress_answer 10 false; progress_answer 60 false;
                      progress_answer 40 false; progress_answer 100 true])
          polling_started with
  | Some (_, effs) =>
      progress_calls effs = [VNum 10; VNum 60; VNum 40; VNum 100] /\
      progress_calls effs <> [VNum 10; VNum 60; VNum 60; VNum 100] /\
      ~ nondecreasing (progress_calls effs)
  | None => False
  end.
Proof.
  simpl. split; [reflexivity|]. split; [discriminate|].
  intros H. specialize (H 1%nat 60 40 eq_refl eq_refl). lia.
Qed.

(** C8: when a poll request that is out fails, rejected by the transport
    or answered with a body that cannot be read, the callback logs the
    error and nothing else happens: the interval is as active as it was,
    and when it was active the timer fires again and sends the next poll
    request. No failure of a poll request clears the interval. *)
Theorem poll_failure_keeps_polling (j : job) (s : polling) (n : nat)
    (outcome : result Response) (e : thrown) (ps : list (nat * awaiting)) :
  take_pending n ProgressResponse (pending s) = Some ps ->
  failure_of outcome = Some e ->
  let s' := mkPolling (active s) (issued s) ps in
  step j (ProgressSettles n outcome) s = Some (s', [ConsoleError e]) /\
  (active s = true ->
   step j TimerFires s' =
     Some (mkPolling true (S (issued s)) ((issued s, ProgressResponse) :: ps),
           [Fetch (JobProgress (jobId j))])).
Proof.
  intros Hn Hf s'. split.
  - simpl. rewrite Hn, (poll_progress_failure j outcome e _ Hf). reflexivity.
  - intros Ha. simpl. rewrite Ha. reflexivity.
Qed.

Lemma poll_failure_keeps_polling_witness :
  let j := mkJob UploadYoutubeVideo (VStr "job-1") in
  let s := mkPolling true 1 [(0%nat, ProgressResponse)] in
  let unreadable := mkResponse true (Some "application/json")
                      (Throw (ErrorObj "Unexpected end of JSON input")) (Ret "") in
  take_pending 0 ProgressResponse (pending s) = Some [] /\
  failure_of (Ret unreadable) = Some (ErrorObj "Unexpected end of JSON input") /\
  step j (ProgressSettles 0 (Ret unreadable)) s =
    Some (mkPolling true 1 [], [ConsoleError (ErrorObj "Unexpected end of JSON input")]) /\
  (active s = true ->
   step j TimerFires (mkPolling true 1 []) =
     Some (mkPolling true 2 [(1%nat, ProgressResponse)], [Fetch (JobProgress (VStr "job-1"))])).
Proof.
  split; [reflexivity|]. split; [reflexivity|].
  exact (poll_failure_keeps_polling (mkJob UploadYoutubeVideo (VStr "job-1"))
           (mkPolling true 1 [(0%nat, ProgressResponse)]) 0
           (Ret (mkResponse true (Some "application/json")
                   (Throw (ErrorObj "Unexpected end of JSON input")) (Ret "")))
           (ErrorObj "Unexpected end of JSON input") [] eq_refl eq_refl).
Defined.

(** However many polls fail one after the other, the job is still polled. *)
Lemma failing_polls_in_turn (j : job) (outcomes : list (result Response)) (s : polling) :
  active s = true ->
  Forall (fun o => is_Some (failure_of o)) outcomes ->
  exists effs,
    run j (in_turn (issued s) outcomes) s =
      Some (mkPolling true (issued s + length outcomes) (pending s), effs) /\
    progress_calls effs = [] /\ ClearInterval ∉ effs.
Proof.
  intros Ha Hall. revert s Ha.
  induction Hall as [|o outcomes [e He] _ IH]; intros [a i ps] Ha; simpl in Ha; subst a.
  - exists []. simpl. rewrite Nat.add_0_r. split; [done|]. split; [done|apply not_elem_of_nil].
  - destruct (IH (mkPolling true (S i) ps) eq_refl) as (effs & Hrun & Hcalls & Hclear).
    exists (Fetch (JobProgress (jobId j)) :: ConsoleError e :: effs).
    cbn [in_turn run step active issued pending]. simpl in Hrun.
    change (fst (poll_request j (mkPolling true i ps)))
      with (mkPolling true (S i) ((i, ProgressResponse) :: ps), [Fetch (JobProgress (jobId j))]).
    cbn [take_pending active issued pending]. rewrite Nat.eqb_refl.
    rewrite (poll_progress_failure j o e _ He). cbn [fst].
    rewrite Hrun. cbn [length]. replace (i + S (length outcomes))%nat with (S i + length outcomes)%nat by lia.
    split; [done|]. split; [done|].
    intros Hin. apply elem_of_cons in Hin as [?|Hin]; [discriminate|].
    apply elem_of_cons in Hin as [?|Hin]; [discriminate|]. by apply Hclear.
Qed.

Lemma step_inactive j ev s s1 e1 :
  active s = false -> step j ev s = Some (s1, e1) ->
  active s1 = false /\ ev <> TimerFires /\
  (forall id, Fetch (JobProgress id) ∉ e1) /\
  ((forall m, (m, ProgressResponse) ∉ pending s) ->
   (forall m, (m, ProgressResponse) ∉ pending s1) /\ progress_calls e1 = []).
Proof.
  intros Ha.
  assert (Hfetch : forall id, Fetch (JobProgress id) <> Fetch (result_endpoint j)).
  { intros id. unfold result_endpoint. destruct (job_of j); discriminate. }
  destruct ev as [|n outcome|n outcome]; simpl; intros H.
  - by rewrite Ha in H.
  - destruct (take_pending n ProgressResponse (pending s)) as [ps|] eqn:Hps; [|discriminate].
    injection H as H. apply take_pending_elem in Hps as [Hin Hsub].
    assert (Hnone : (forall m, (m, ProgressResponse) ∉ pending s) -> False)
      by (intros Hno; by apply (Hno n)).
    destruct (poll_progress_cases j outcome (mkPolling (active s) (issued s) ps))
      as [(e & Hf & Hp)|[(response & r & -> & Hr & Ht & Hp)
                        |(response & r & d & -> & Hr & Hd & Ht)]].
    + rewrite Hp in H. injection H as <- <-.
      split; [done|]. split; [done|]. split; [no_poll_fetch Hfetch|].
      intros Hno. by destruct Hnone.
    + rewrite Hp in H. injection H as <- <-.
      split; [done|]. split; [done|]. split; [no_poll_fetch Hfetch|].
      intros Hno. by destruct Hnone.
    + rewrite (poll_progress_data j response r d _ Hr Hd Ht) in H.
      destruct (truthy (prop d "completed")); [destruct (truthy (inline_result j d))|];
        injection H as <- <-;
        (split; [done|]; split; [done|]; split; [no_poll_fetch Hfetch|]);
        intros Hno; by destruct Hnone.
  - destruct (take_pending n FinalResponse (pending s)) as [ps|] eqn:Hps; [|discriminate].
    rewrite poll_final_cases in H. injection H as <- <-. simpl.
    apply take_pending_elem in Hps as [Hin Hsub].
    split; [done|]. split; [done|].
    split; [destruct outcome; no_poll_fetch Hfetch|].
    intros Hno. split; [|by destruct outcome].
    intros m Hm. apply (Hno m). auto.
Qed.

Lemma run_inactive j evs s s2 e2 :
  active s = false -> run j evs s = Some (s2, e2) ->
  active s2 = false /\ (TimerFires ∉ evs) /\
  (forall id, Fetch (JobProgress id) ∉ e2) /\
  ((forall m, (m, ProgressResponse) ∉ pending s) -> progress_calls e2 = []).
Proof.
  revert s e2. induction evs as [|ev evs IH]; intros s e2 Ha H; simpl in H.
  - injection H as <- <-. repeat split; try done; intros; apply not_elem_of_nil.
  - destruct (step j ev s) as [[s1 e1]|] eqn:Hstep; [|discriminate].
    destruct (run j evs s1) as [[s3 e3]|] eqn:Hrun; [|discriminate].
    injection H as <- <-.
    destruct (step_inactive _ _ _ _ _ Ha Hstep) as (Ha1 & Hev & Hf1 & Hp1).
    destruct (IH _ _ Ha1 Hrun) as (Ha3 & Hev3 & Hf3 & Hp3).
    repeat split; try done.
    + intros Hin. apply elem_of_cons in Hin as [Hin|Hin]; [by apply Hev|by apply Hev3].
    + intros id Hin. apply elem_of_app in Hin as [Hin|Hin]; [by apply (Hf1 id)|by apply (Hf3 id)].
    + intros Hno. destruct (Hp1 Hno) as [Hno1 Hc1].
      rewrite progress_calls_app, Hc1, (Hp3 Hno1). reflexivity.
Qed.

(** C2, as the code has it: when the answer to a poll request reports
    [completed], the callback clears the interval, so the timer does not
    fire again and no further poll request is sent (an answer to a poll
    request that was already out can still reach [onProgress]; when none
    is out, [onProgress] is not called again). That run of the callback
    settles with the inline [videoData] when [uploadYoutubeVideo] finds one
    in the answer, and otherwise with the envelope of one more request:
    the result resource of the job for [uploadYoutubeVideo], the video for
    [processVideo], the clips of the video for [generateClips]. The caller
    of the operation has been given the "processing" placeholder (the
    empty clip list for [generateClips]) when polling started. *)
Theorem completed_stops_polling (j : job) (s s1 : polling) (n : nat)
    (response : Response) (r : ApiResponse) (d : value) (effs : list effect) :
  step j (ProgressSettles n (Ret response)) s = Some (s1, effs) ->
  handleResponse response = Ret r ->
  data r = Some d ->
  truthy d = true ->
  truthy (prop d "completed") = true ->
  active s1 = false /\
  effs = [OnProgress (prop d "progress"); ClearInterval;
          if truthy (inline_result j d)
          then CallbackSettled (Ret (with_data (inline_result j d)))
          else Fetch (result_endpoint j)] /\
  (truthy (inline_result j d) = false ->
   forall final : Response,
     exists s2,
       step j (FinalSettles (issued s) (Ret final)) s1 =
         Some (s2, [CallbackSettled (handleResponse final)]) /\
       active s2 = false) /\
  (forall evs s2 effs2,
     run j evs s1 = Some (s2, effs2) ->
     active s2 = false /\ (TimerFires ∉ evs) /\
     (forall id, Fetch (JobProgress id) ∉ effs2) /\
     ((forall m, (m, ProgressResponse) ∉ pending s1) -> progress_calls effs2 = [])) /\
  (forall net videoId settings onProgress effs0 ret0,
     processVideo net videoId settings onProgress None = (Some j, effs0, ret0) ->
     ret0 = Ret (with_data (processing_placeholder (VStr videoId)))) /\
  (forall net videoId settings onProgress effs0 ret0,
     generateClips net videoId settings onProgress None = (Some j, effs0, ret0) ->
     ret0 = Ret (with_data (VArr []))) /\
  (forall fuel amb net url onProgress quality st st' effs0 ret0,
     uploadYoutubeVideo fuel amb net url onProgress quality st = Some (Some j, st', effs0, ret0) ->
     ret0 = Ret (with_data (processing_placeholder (jobId j)))).
Proof.
  intros Hstep Hr Hd Ht Hc. simpl in Hstep.
  destruct (take_pending n ProgressResponse (pending s)) as [ps|]; [|discriminate].
  rewrite (poll_progress_data j response r d _ Hr Hd Ht), Hc in Hstep.
  assert (Ha : active s1 = false).
  { destruct (truthy (inline_result j d)); by injection Hstep as <- _. }
  split; [exact Ha|]. split; [|split; [|split; [|split; [|split]]]].
  - destruct (truthy (inline_result j d)); by injection Hstep as _ <-.
  - intros Hi final. rewrite Hi in Hstep. injection Hstep as <- _.
    exists (mkPolling false (S (issued s)) ps).
    cbn [step pending active issued take_pending]. rewrite Nat.eqb_refl.
    by rewrite poll_final_cases.
  - intros evs s2 effs2 Hrun. by apply (run_inactive j evs s1).
  - intros net videoId settings onProgress effs0 ret0 H.
    by destruct (processVideo_polling _ _ _ _ _ _ _ H) as (_ & _ & ->).
  - intros net videoId settings onProgress effs0 ret0 H.
    by destruct (generateClips_polling _ _ _ _ _ _ _ H) as (_ & _ & ->).
  - intros fuel amb net url onProgress quality st st' effs0 ret0 H.
    by destruct (uploadYoutubeVideo_polling _ _ _ _ _ _ _ _ _ _ _ H) as (_ & _ & _ & _ & ->).
Qed.

Lemma completed_stops_polling_witness :
  let j := mkJob UploadYoutubeVideo (VStr "job-1") in
  let s := mkPolling true 1 [(0%nat, ProgressResponse)] in
  let d := VObj [("progress", VNum 100); ("completed", VBool true)] in
  let s1 := mkPolling false 2 [(1%nat, FinalResponse)] in
  let effs := [OnProgress (VNum 100); ClearInterval; Fetch (JobResult (VStr "job-1"))] in
  step j (ProgressSettles 0 (progress_answer 100 true)) s = Some (s1, effs) /\
  handleResponse (json_response true d) = Ret (with_data d) /\
  truthy d = true /\
  truthy (prop d "completed") = true /\
  active s1 = false /\
  (exists s2,
     step j (FinalSettles 1 (Ret (json_response true finished_video))) s1 =
       Some (s2, [CallbackSettled (Ret (with_data finished_video))]) /\
     active s2 = false) /\
  uploadYoutubeVideo 0 sample_ambient (accepting finished_video)
      "https://youtu.be/dQw4w9WgXcQ" true None initial_store =
    Some (Some j, initial_store,
          [OnProgress (VNum 5); Fetch (YoutubeDownload "https://youtu.be/dQw4w9WgXcQ" "720p");
           OnProgress (VNum 10)],
          Ret (with_data (processing_placeholder (VStr "job-1")))).
Proof.
  intros j s d s1 effs.
  destruct (completed_stops_polling j s s1 0 (json_response true d) (with_data d) d effs
              eq_refl eq_refl eq_refl eq_refl eq_refl) as (Ha & _ & Hfinal & _).
  split; [reflexivity|]. split; [reflexivity|]. split; [reflexivity|].
  split; [reflexivity|]. split; [exact Ha|].
  split; [exact (Hfinal eq_refl (json_response true finished_video))|reflexivity].
Defined.

(** C2 as stated fails: the caller of [uploadYoutubeVideo] is given the
    placeholder; the finished record that the server sends with the last
    answer is what a run of the callback settles with, it is not what the
    operation returned. *)
Lemma final_result_stays_in_callback :
  let j := mkJob UploadYoutubeVideo (VStr "job-1") in
  let last_answer :=
    Ret (json_response true
           (VObj [("progress", VNum 100); ("completed", VBool true);
                  ("videoData", finished_video)])) in
  uploadYoutubeVideo 0 sample_ambient (accepting finished_video)
      "https://youtu.be/dQw4w9WgXcQ" true None initial_store =
    Some (Some j, initial_store,
          [OnProgress (VNum 5); Fetch (YoutubeDownload "https://youtu.be/dQw4w9WgXcQ" "720p");
           OnProgress (VNum 10)],
          Ret (with_data (processing_placeholder (VStr "job-1")))) /\
  run j [TimerFires; ProgressSettles 0 last_answer] polling_started =
    Some (mkPolling false 1 [],
          [Fetch (JobProgress (VStr "job-1")); OnProgress (VNum 100); ClearInterval;
           CallbackSettled (Ret (with_data finished_video))]) /\
  with_data (processing_placeholder (VStr "job-1")) <> with_data finished_video.
Proof. split; [reflexivity|]. split; [reflexivity|discriminate]. Qed.

(** An answer that was out when the job completed still reaches
    [onProgress]. *)
Example late_answer_after_completion :
  run (mkJob (ProcessVideo "v1") (VStr "job-1"))
      [TimerFires; TimerFires;
       ProgressSettles 1 (progress_answer 100 true);
       ProgressSettles 0 (progress_answer 50 false)]
      polling_started =
    Some (mkPolling false 3 [(2%nat, FinalResponse)],
          [Fetch (JobProgress (VStr "job-1")); Fetch (JobProgress (VStr "job-1"));
           OnProgress (VNum 100); ClearInterval; Fetch (VideoById "v1");
           OnProgress (VNum 50)]).
Proof. reflexivity. Qed.

End Polling.

(** ** The validation of files *)

Section Validation.

Lemma existsb_eqb_elem (x : string) (xs : list string) :
  existsb (String.eqb x) xs = true <-> x ∈ xs.
Proof.
  rewrite existsb_exists, list_elem_of_In. split.
  - intros (y & Hy & Heq). by apply String.eqb_eq in Heq as ->.
  - intros Hx. exists x. split; [done|apply String.eqb_refl].
Qed.

(** What the loop keeps, and what it says about what it drops. *)
Lemma validate_each_spec (supportedFormats : list string) (maxFileSize : Z)
    (fileArray : list File) :
  let '(validFiles, errors) := validate_each supportedFormats maxFileSize fileArray in
  (forall f, f ∈ validFiles ->
     f ∈ fileArray /\ file_size f <= maxFileSize * 1024 * 1024 /\
     extension_of (file_name f) ∈ supportedFormats) /\
  (forall f, f ∈ fileArray ->
     extension_of (file_name f) ∈ supportedFormats ->
     file_size f > maxFileSize * 1024 * 1024 ->
     Some (too_large_message maxFileSize (file_name f)) ∈ errors).
Proof.
  induction fileArray as [|file rest IH]; cbn [validate_each].
  - split; intros f Hf; by apply elem_of_nil in Hf.
  - destruct (validate_each supportedFormats maxFileSize rest) as [validFiles errors].
    destruct IH as [IHv IHe].
    destruct (existsb _ supportedFormats) eqn:Hext; cbn [negb].
    + apply existsb_eqb_elem in Hext.
      destruct (file_size file >? maxFileSize * 1024 * 1024) eqn:Hsize.
      * split.
        -- intros f Hf. destruct (IHv f Hf) as (? & ? & ?). split; [by right|done].
        -- intros f Hf Hsup Hbig. apply elem_of_cons in Hf as [->|Hf]; [left|right; auto].
      * split.
        -- intros f Hf. apply elem_of_cons in Hf as [->|Hf].
           ++ split; [left|]. split; [lia|done].
           ++ destruct (IHv f Hf) as (? & ? & ?). split; [by right|done].
        -- intros f Hf Hsup Hbig. apply elem_of_cons in Hf as [->|Hf]; [lia|auto].
    + split.
      * intros f Hf. destruct (IHv f Hf) as (? & ? & ?). split; [by right|done].
      * intros f Hf Hsup Hbig. apply elem_of_cons in Hf as [->|Hf]; [|right; auto].
        apply existsb_eqb_elem in Hsup. congruence.
Qed.

Lemma too_large_message_names_file (maxFileSize : Z) (name : string) :
  includes (too_large_message maxFileSize name) name = true.
Proof.
  exact (includes_app "File too large: " name
           (". Maximum size is " +:+ string_of_Z maxFileSize +:+ "MB")).
Qed.

(** C7, as the code has it: a file that is larger than [maxFileSize] MB is
    never among the files that the validation keeps, and the file that is
    handed to [uploadVideo], the first request, is never larger than that;
    when the extension of the file is one of the supported formats, the
    validation calls [setError] with "File too large: <name>. Maximum
    size is <maxFileSize>MB", which contains the name of the file. *)
Theorem oversized_file_rejected (supportedFormats : list string) (maxFileSize : Z)
    (fileList : list File) (file : File) :
  file ∈ fileList ->
  file_size file > maxFileSize * 1024 * 1024 ->
  (file ∉ (validateFiles supportedFormats maxFileSize fileList).1) /\
  (forall f, (handleFileInputChange supportedFormats maxFileSize fileList).2 = Some f ->
     file_size f <= maxFileSize * 1024 * 1024) /\
  (extension_of (file_name file) ∈ supportedFormats ->
     Some (too_large_message maxFileSize (file_name file))
       ∈ (validateFiles supportedFormats maxFileSize fileList).2 /\
     includes (too_large_message maxFileSize (file_name file)) (file_name file) = true).
Proof.
  intros Hin Hbig. unfold handleFileInputChange, validateFiles.
  pose proof (validate_each_spec supportedFormats maxFileSize fileList) as Hspec.
  destruct (validate_each supportedFormats maxFileSize fileList) as [validFiles errors].
  destruct Hspec as [Hv He]. cbn [fst snd]. split; [|split].
  - intros Hf. destruct (Hv file Hf) as (_ & ? & _). lia.
  - intros f. destruct (0 <? length fileList)%nat; [|discriminate].
    destruct validFiles as [|first others]; [discriminate|]. cbn [snd].
    intros [= <-]. destruct (Hv first) as (_ & ? & _); [left|done].
  - intros Hsup. split; [right; by apply He|].
    apply too_large_message_names_file.
Qed.

Lemma oversized_file_rejected_witness :
  let big := mkFile "holiday.MP4" (600 * 1024 * 1024) in
  let small := mkFile "intro.mov" (5 * 1024 * 1024) in
  big ∈ [big; small] /\
  file_size big > maxFileSize_default * 1024 * 1024 /\
  (big ∉ (validateFiles supportedFormats_default maxFileSize_default [big; small]).1) /\
  (handleFileInputChange supportedFormats_default maxFileSize_default [big; small]).2 = Some small /\
  (extension_of (file_name big) ∈ supportedFormats_default ->
   Some "File too large: holiday.MP4. Maximum size is 500MB"
     ∈ (validateFiles supportedFormats_default maxFileSize_default [big; small]).2 /\
   includes "File too large: holiday.MP4. Maximum size is 500MB" "holiday.MP4" = true).
Proof.
  intros big small.
  assert (Hin : big ∈ [big; small]) by left.
  assert (Hbig : file_size big > maxFileSize_default * 1024 * 1024) by (vm_compute; reflexivity).
  destruct (oversized_file_rejected supportedFormats_default maxFileSize_default
              [big; small] big Hin Hbig) as (Hout & _ & Hmsg).
  split; [exact Hin|]. split; [exact Hbig|]. split; [exact Hout|].
  split; [reflexivity|exact Hmsg].
Defined.

(** C7 as stated fails: a file of 600 MB with an extension that is not
    supported is dropped with the message about the format, and no call
    of [setError] has a message that contains the name of the file. *)
Lemma oversized_file_other_message :
  let movie := mkFile "movie.exe" (600 * 1024 * 1024) in
  file_size movie > maxFileSize_default * 1024 * 1024 /\
  validateFiles supportedFormats_default maxFileSize_default [movie] =
    ([], [None;
          Some "Unsupported file format: .exe. Please use: .mp4, .mov, .avi, .mkv, .webm"]) /\
  includes "Unsupported file format: .exe. Please use: .mp4, .mov, .avi, .mkv, .webm"
    "movie.exe" = false.
Proof. split; [reflexivity|]. split; reflexivity. Qed.

End Validation.

(** * Further properties *)

(** ** More of the mock layer *)

Section MockLayerMore.

Lemma findIndex_from_spec (id : string) (st : store) (xs : list positive) (i : nat) :
  match findIndex_from id st xs i with
  | None => forall l v, l ∈ xs -> objects st !! l = Some v -> vd_id v <> id
  | Some n =>
      exists before l after v,
        xs = before ++ l :: after /\ n = (i + length before)%nat /\
        objects st !! l = Some v /\ vd_id v = id /\
        (forall l' v', l' ∈ before -> objects st !! l' = Some v' -> vd_id v' <> id)
  end.
Proof.
  revert i. induction xs as [|l xs IH]; intros i; simpl.
  - intros l v Hl. by apply elem_of_nil in Hl.
  - destruct (match objects st !! l with
              | Some video => String.eqb (vd_id video) id
              | None => false
              end) eqn:Hm.
    + destruct (objects st !! l) as [video|] eqn:Hl; [|discriminate].
      apply String.eqb_eq in Hm.
      exists [], l, xs, video. simpl. rewrite Nat.add_0_r.
      split; [done|]. split; [done|]. split; [done|]. split; [done|].
      intros l' v' Hin. by apply elem_of_nil in Hin.
    + assert (Hl : forall v', objects st !! l = Some v' -> vd_id v' <> id).
      { intros v' Hv'. rewrite Hv' in Hm. by apply String.eqb_neq. }
      specialize (IH (S i)). destruct (findIndex_from id st xs (S i)) as [n|].
      * destruct IH as (before & l0 & after & v & -> & -> & Hv & Hid & Hbefore).
        exists (l :: before), l0, after, v. simpl.
        split; [done|]. split; [lia|]. split; [done|]. split; [done|].
        intros l' v' Hin Hl'. apply elem_of_cons in Hin as [->|Hin]; eauto.
      * intros l' v' Hin Hl'. apply elem_of_cons in Hin as [->|Hin]; eauto.
Qed.

(** X1: [mockDeleteVideo] resolves after 300 ms whatever the id is. It
    takes out of the mock list the first video with that id and nothing
    else; when no video has the id, the store stays as it is. No video
    record is changed. *)
Theorem mockDeleteVideo_removes_first (id : string) (st : store) (xs : list positive) :
  arrays st !! mockVideos = Some xs ->
  exists st',
    mockDeleteVideo id st = (Fulfilled 300 tt, st') /\
    objects st' = objects st /\
    ((st' = st /\ forall l v, l ∈ xs -> objects st !! l = Some v -> vd_id v <> id) \/
     (exists before l after v,
        xs = before ++ l :: after /\
        objects st !! l = Some v /\ vd_id v = id /\
        (forall l' v', l' ∈ before -> objects st !! l' = Some v' -> vd_id v' <> id) /\
        arrays st' !! mockVideos = Some (before ++ after))).
Proof.
  intros Hxs. unfold mockDeleteVideo. rewrite Hxs. simpl.
  pose proof (findIndex_from_spec id st xs 0) as Hspec.
  destruct (findIndex_from id st xs 0) as [n|].
  - destruct Hspec as (before & l & after & v & -> & -> & Hv & Hid & Hbefore).
    eexists. split; [reflexivity|]. split; [reflexivity|]. right.
    exists before, l, after, v.
    split; [done|]. split; [done|]. split; [done|]. split; [done|].
    unfold mutate_array. simpl. rewrite lookup_alter_eq, Hxs. simpl.
    by rewrite delete_middle.
  - exists st. split; [reflexivity|]. split; [reflexivity|]. by left.
Qed.

Lemma mockDeleteVideo_removes_first_witness :
  arrays initial_store !! mockVideos = Some [1; 2; 3]%positive /\
  exists st',
    mockDeleteVideo "2" initial_store = (Fulfilled 300 tt, st') /\
    arrays st' !! mockVideos = Some [1; 3]%positive.
Proof.
  split; [reflexivity|].
  destruct (mockDeleteVideo_removes_first "2" initial_store [1; 2; 3]%positive eq_refl)
    as (st' & Hdel & _ & _).
  exists st'. split; [exact Hdel|].
  injection Hdel as <-. reflexivity.
Defined.

(** X2: when an id is found in the URL, [mockUploadYoutubeVideo] resolves
    4500 ms after the call (twenty timer runs of 200 ms, then 500 ms) with
    a new record that it has put first in the mock list: the id of the
    record is yt- followed by the id of the URL, its thumbnail and its URL
    are built from that id, its platform is YouTube and its status
    completed. A callback is called with 5, 10, ..., 100. *)
Theorem mockUploadYoutubeVideo_resolves (fuel : nat) (amb : ambient) (youtubeUrl videoId : string)
    (onProgress : bool) (st : store) :
  (20 <= fuel)%nat ->
  getYoutubeVideoId youtubeUrl = Some videoId ->
  exists (l : positive) (v : VideoData) (st' : store),
    mockUploadYoutubeVideo fuel amb youtubeUrl onProgress st =
      Some (Fulfilled 4500 l, (if onProgress then ticks 200 5 20 else []), st') /\
    objects st !! l = None /\
    objects st' = <[l := v]> (objects st) /\
    arrays st' !! mockVideos = cons l <$> arrays st !! mockVideos /\
    vd_id v = "yt-" +:+ videoId /\
    vd_thumbnail v = "https://img.youtube.com/vi/" +:+ videoId +:+ "/mqdefault.jpg" /\
    vd_url v = Some ("https://www.youtube.com/watch?v=" +:+ videoId) /\
    vd_platform v = "YouTube" /\
    vd_status v = completed.
Proof.
  intros Hfuel Hid.
  do 20 (destruct fuel as [|fuel]; [lia|]). clear Hfuel.
  exists (fresh (dom (objects st))).
  eexists (mkVideoData _ _ _ _ _ _ _ _ _), _.
  split.
  { unfold mockUploadYoutubeVideo. rewrite Hid.
    cbn [setInterval mockUploadYoutubeVideo_tick Z.add Pos.add Pos.succ Z.geb Z.compare
         Pos.compare Pos.compare_cont].
    destruct onProgress; reflexivity. }
  split; [apply not_elem_of_dom, is_fresh|].
  split; [reflexivity|].
  split; [apply lookup_alter_eq|].
  repeat (split; [reflexivity|]). reflexivity.
Qed.

Lemma mockUploadYoutubeVideo_resolves_witness :
  (20 <= 20)%nat /\
  getYoutubeVideoId "https://youtu.be/dQw4w9WgXcQ" = Some "dQw4w9WgXcQ" /\
  exists (l : positive) (v : VideoData) (st' : store),
    mockUploadYoutubeVideo 20 sample_ambient "https://youtu.be/dQw4w9WgXcQ" true initial_store =
      Some (Fulfilled 4500 l, ticks 200 5 20, st') /\
    objects initial_store !! l = None /\
    objects st' = <[l := v]> (objects initial_store) /\
    arrays st' !! mockVideos = cons l <$> arrays initial_store !! mockVideos /\
    vd_id v = "yt-dQw4w9WgXcQ" /\
    vd_thumbnail v = "https://img.youtube.com/vi/dQw4w9WgXcQ/mqdefault.jpg" /\
    vd_url v = Some "https://www.youtube.com/watch?v=dQw4w9WgXcQ" /\
    vd_platform v = "YouTube" /\
    vd_status v = completed.
Proof.
  split; [lia|]. split; [reflexivity|].
  exact (mockUploadYoutubeVideo_resolves 20 sample_ambient "https://youtu.be/dQw4w9WgXcQ"
           "dQw4w9WgXcQ" true initial_store (Nat.le_refl 20) eq_refl).
Defined.




Lemma mockUploadVideo_result (fuel : nat) (amb : ambient) (file : File)
    (onProgress : bool) (st : store) :
  (20 <= fuel)%nat ->
  let videoData :=
    mkVideoData (random_id amb) (file_name file) "Unknown" (today amb) completed
      (unsplash "1611162616475-46b635cb6868") "1:30"
      (toFixed2 (file_size file) (1024 * 1024) +:+ " MB") None in
  let l := fresh (dom (objects st)) in
  mockUploadVideo fuel amb file onProgress st =
    Some (Fulfilled 4500 l, (if onProgress then ticks 200 5 20 else []),
          unshift mockVideos l (new_object videoData st).2).
Proof.
  intros Hfuel. do 20 (destruct fuel as [|fuel]; [lia|]).
  destruct onProgress; reflexivity.
Qed.

(** X4: [mockUploadVideo] followed by [mockDeleteVideo] of the id that the
    upload made leaves the mock list as it was before the upload, whatever
    ids the list holds; the deletion changes no record. *)
Theorem mockUploadVideo_then_delete (fuel : nat) (amb : ambient) (file : File)
    (onProgress : bool) (st : store) :
  (20 <= fuel)%nat ->
  exists (l : positive) (effs : list (Z * effect)) (st1 st2 : store),
    mockUploadVideo fuel amb file onProgress st = Some (Fulfilled 4500 l, effs, st1) /\
    arrays st1 !! mockVideos = cons l <$> arrays st !! mockVideos /\
    mockDeleteVideo (random_id amb) st1 = (Fulfilled 300 tt, st2) /\
    arrays st2 = arrays st /\
    objects st2 = objects st1.
Proof.
  intros Hfuel. rewrite (mockUploadVideo_result fuel amb file onProgress st Hfuel).
  set (l := fresh (dom (objects st))).
  match goal with
  | |- context [Some (_, ?effs, ?st1)] =>
      exists l, effs, st1, (mockDeleteVideo (random_id amb) st1).2
  end.
  split; [reflexivity|].
  unfold unshift, new_object, mutate_array. cbn [snd objects arrays].
  split; [apply lookup_alter_eq|].
  split; [reflexivity|].
  unfold mockDeleteVideo, mutate_array. cbn [snd objects arrays].
  rewrite lookup_alter_eq.
  destruct (arrays st !! mockVideos) as [xs|] eqn:Hxs;
    cbn [fmap option_fmap option_map default from_option id findIndex_from objects].
  - fold l. rewrite lookup_insert_eq. cbn [vd_id]. rewrite String.eqb_refl.
    split; [|reflexivity]. cbn [arrays].
    apply map_eq. intros a. destruct (decide (a = mockVideos)) as [->|Hne].
    + rewrite !lookup_alter_eq, Hxs. reflexivity.
    + by rewrite !lookup_alter_ne.
  - split; [|reflexivity]. cbn [arrays].
    apply map_eq. intros a. destruct (decide (a = mockVideos)) as [->|Hne].
    + rewrite lookup_alter_eq, Hxs. reflexivity.
    + by rewrite lookup_alter_ne.
Qed.

Lemma mockUploadVideo_then_delete_witness :
  (20 <= 20)%nat /\
  exists (l : positive) (effs : list (Z * effect)) (st1 st2 : store),
    mockUploadVideo 20 sample_ambient clip_mp4 false initial_store =
      Some (Fulfilled 4500 l, effs, st1) /\
    arrays st1 !! mockVideos = cons l <$> arrays initial_store !! mockVideos /\
    mockDeleteVideo (random_id sample_ambient) st1 = (Fulfilled 300 tt, st2) /\
    arrays st2 = arrays initial_store /\
    objects st2 = objects st1.
Proof.
  split; [lia|].
  exact (mockUploadVideo_then_delete 20 sample_ambient clip_mp4 false initial_store
           (Nat.le_refl 20)).
Defined.

End MockLayerMore.

(** ** More of the operations *)

Section OperationsMore.

Ltac reduce := cbn -[get_prop truthy handleResponse mockUploadYoutubeVideo].

Ltac run_body :=
  unfold processVideo, generateClips, uploadYoutubeVideo, uploadYoutubeVideo_try,
    fetch, start_polling, try_catch, and_then, await, emit, update, ret;
  reduce.

Lemma handleResponse_one_key (response : Response) (env : ApiResponse) :
  handleResponse response = Ret env -> exactly_one env.
Proof.
  unfold handleResponse. destruct (read_body response) as [body|e]; [|discriminate].
  simpl. destruct (ok response); simpl.
  - intros [= <-]. left. simpl. eauto.
  - destruct (isJson response).
    + destruct (get_prop body "message"); simpl; [|discriminate].
      intros [= <-]. right. simpl. eauto.
    + intros [= <-]. right. simpl. eauto.
Qed.

(** X5: [processVideo] and [generateClips] never reject: whatever the
    network does, they send one request, the submission, and return an
    envelope with exactly one of data and error. When the request fails,
    no polling is started and the error is the message of the failure, or
    the text of the operation when what was thrown is not an Error. *)
Theorem submissions_always_return (net : endpoint -> result Response)
    (videoId : string) (settings : value) (onProgress : bool) :
  (exists j env,
     processVideo net videoId settings onProgress None =
       (j, [Fetch (VideoProcess videoId settings)], Ret env) /\
     exactly_one env /\
     (forall e, net (VideoProcess videoId settings) = Throw e ->
        j = None /\ env = with_error (message_or "Processing failed" e))) /\
  (exists j env,
     generateClips net videoId settings onProgress None =
       (j, [Fetch (ClipsGenerate videoId settings)], Ret env) /\
     exactly_one env /\
     (forall e, net (ClipsGenerate videoId settings) = Throw e ->
        j = None /\ env = with_error (message_or "Clip generation failed" e))).
Proof.
  split; run_body.
  - destruct (net (VideoProcess videoId settings)) as [response|e]; reduce.
    + destruct (handleResponse response) as [res|e] eqn:Hres; reduce.
      * destruct (field_truthy (error res) || negb (field_truthy (data res))); reduce.
        -- eexists _, _. split; [reflexivity|]. split; [|discriminate].
           by apply (handleResponse_one_key response).
        -- destruct (get_prop _ _); destruct onProgress; reduce;
             eexists _, _; (split; [reflexivity|]); (split; [|discriminate]);
             first [left; simpl; by eauto | right; simpl; by eauto].
      * eexists _, _. split; [reflexivity|]. split; [right; simpl; eauto|discriminate].
    + eexists _, _. split; [reflexivity|]. split; [right; simpl; eauto|].
      by intros e' [= <-].
  - destruct (net (ClipsGenerate videoId settings)) as [response|e]; reduce.
    + destruct (handleResponse response) as [res|e] eqn:Hres; reduce.
      * destruct (field_truthy (error res) || negb (field_truthy (data res))); reduce.
        -- eexists _, _. split; [reflexivity|]. split; [|discriminate].
           by apply (handleResponse_one_key response).
        -- destruct (get_prop _ _); destruct onProgress; reduce;
             eexists _, _; (split; [reflexivity|]); (split; [|discriminate]);
             first [left; simpl; by eauto | right; simpl; by eauto].
      * eexists _, _. split; [reflexivity|]. split; [right; simpl; eauto|discriminate].
    + eexists _, _. split; [reflexivity|]. split; [right; simpl; eauto|].
      by intros e' [= <-].
Qed.

(** X6: when the answer to the submission gives an envelope with an error,
    or with no data, [processVideo], [generateClips] and
    [uploadYoutubeVideo] return that envelope as it is: no polling is
    started, the mock store is not touched, and nothing else is
    requested. *)
Theorem submission_error_returned_unchanged (net : endpoint -> result Response)
    (response : Response) (env : ApiResponse) :
  handleResponse response = Ret env ->
  field_truthy (error env) || negb (field_truthy (data env)) = true ->
  (forall videoId settings onProgress,
     net (VideoProcess videoId settings) = Ret response ->
     processVideo net videoId settings onProgress None =
       (None, [Fetch (VideoProcess videoId settings)], Ret env)) /\
  (forall videoId settings onProgress,
     net (ClipsGenerate videoId settings) = Ret response ->
     generateClips net videoId settings onProgress None =
       (None, [Fetch (ClipsGenerate videoId settings)], Ret env)) /\
  (forall fuel amb url onProgress quality st,
     net (YoutubeDownload url (default "720p" quality)) = Ret response ->
     uploadYoutubeVideo fuel amb net url onProgress quality st =
       Some (None, st,
             (if onProgress then [OnProgress (VNum 5)] else []) ++
             [Fetch (YoutubeDownload url (default "720p" quality))],
             Ret env)).
Proof.
  intros Hr Hc. split; [|split].
  - intros videoId settings onProgress Hnet. run_body. rewrite Hnet, Hr. reduce.
    by rewrite Hc.
  - intros videoId settings onProgress Hnet. run_body. rewrite Hnet, Hr. reduce.
    by rewrite Hc.
  - intros fuel amb url onProgress quality st Hnet. run_body.
    destruct onProgress; reduce; rewrite Hnet; reduce; rewrite Hr; reduce;
      by rewrite Hc.
Qed.

Lemma submission_error_returned_unchanged_witness :
  let refused := json_response false (VObj [("message", VStr "Quota exceeded")]) in
  let env := with_error (VStr "Quota exceeded") in
  let net := fun _ : endpoint => Ret refused in
  handleResponse refused = Ret env /\
  field_truthy (error env) || negb (field_truthy (data env)) = true /\
  processVideo net "v1" VNull true None = (None, [Fetch (VideoProcess "v1" VNull)], Ret env) /\
  uploadYoutubeVideo 0 sample_ambient net "https://youtu.be/dQw4w9WgXcQ" true None
      initial_store =
    Some (None, initial_store,
          [OnProgress (VNum 5)] ++
          [Fetch (YoutubeDownload "https://youtu.be/dQw4w9WgXcQ" "720p")],
          Ret env).
Proof.
  intros refused env net.
  destruct (submission_error_returned_unchanged net refused env eq_refl eq_refl)
    as (Hp & _ & Hu).
  split; [reflexivity|]. split; [reflexivity|].
  split; [exact (Hp "v1" VNull true eq_refl)|].
  exact (Hu 0%nat sample_ambient "https://youtu.be/dQw4w9WgXcQ" true None initial_store eq_refl).
Defined.

Lemma mockUploadYoutubeVideo_result (fuel : nat) (amb : ambient) (youtubeUrl videoId : string)
    (onProgress : bool) (st : store) :
  (20 <= fuel)%nat ->
  getYoutubeVideoId youtubeUrl = Some videoId ->
  let videoData :=
    mkVideoData ("yt-" +:+ videoId) ("YouTube Import - " +:+ time_string amb) "YouTube"
      (today amb) completed
      ("https://img.youtube.com/vi/" +:+ videoId +:+ "/mqdefault.jpg") "3:45" "32.7 MB"
      (Some ("https://www.youtube.com/watch?v=" +:+ videoId)) in
  let l := fresh (dom (objects st)) in
  mockUploadYoutubeVideo fuel amb youtubeUrl onProgress st =
    Some (Fulfilled 4500 l, (if onProgress then ticks 200 5 20 else []),
          unshift mockVideos l (new_object videoData st).2).
Proof.
  intros Hfuel Hid. unfold mockUploadYoutubeVideo. rewrite Hid.
  do 20 (destruct fuel as [|fuel]; [lia|]).
  destruct onProgress; reflexivity.
Qed.

(** X7: when the submission of [uploadYoutubeVideo] fails (the request is
    rejected, or its answer cannot be read) and an id is found in the URL,
    the caller gets a data envelope with the record of the mock layer,
    which is then the first of the mock list; no job is polled; a
    callback has been called with 5, and then with 5, 10, ..., 100. *)
Theorem uploadYoutubeVideo_falls_back (fuel : nat) (amb : ambient)
    (net : endpoint -> result Response) (youtubeUrl videoId : string) (onProgress : bool)
    (quality : option string) (st : store) (e : thrown) :
  (20 <= fuel)%nat ->
  getYoutubeVideoId youtubeUrl = Some videoId ->
  failure_of (net (YoutubeDownload youtubeUrl (default "720p" quality))) = Some e ->
  exists (l : positive) (v : VideoData) (st' : store) (effs : list effect),
    uploadYoutubeVideo fuel amb net youtubeUrl onProgress quality st =
      Some (None, st', effs, Ret (with_data (video_value v))) /\
    objects st' !! l = Some v /\
    arrays st' !! mockVideos = cons l <$> arrays st !! mockVideos /\
    vd_id v = "yt-" +:+ videoId /\
    vd_thumbnail v = "https://img.youtube.com/vi/" +:+ videoId +:+ "/mqdefault.jpg" /\
    vd_status v = completed /\
    progress_calls effs =
      if onProgress
      then VNum 5 :: map (fun k : nat => VNum (5 * Z.of_nat k)) (List.seq 1 20)
      else [].
Proof.
  intros Hfuel Hid Hnet.
  pose proof (mockUploadYoutubeVideo_result fuel amb youtubeUrl videoId onProgress st Hfuel Hid)
    as Hmock. cbv zeta in Hmock.
  set (l := fresh (dom (objects st))) in *.
  match type of Hmock with
  | _ = Some (_, _, unshift _ _ (new_object ?v _).2) =>
      exists l, v, (unshift mockVideos l (new_object v st).2),
        ((if onProgress then [OnProgress (VNum 5)] else []) ++
         [Fetch (YoutubeDownload youtubeUrl (default "720p" quality))] ++
         map snd (if onProgress then ticks 200 5 20 else []))
  end.
  split.
  { run_body. unfold failure_of in Hnet.
    destruct onProgress; reduce;
      (destruct (net (YoutubeDownload _ _)) as [response|e']; reduce;
         [destruct (handleResponse response); [discriminate|]; reduce|]);
      rewrite Hmock; unfold unshift, new_object, mutate_array; cbn [snd objects arrays];
      fold l; rewrite lookup_insert_eq; reflexivity. }
  unfold unshift, new_object, mutate_array. cbn [snd objects arrays]. fold l.
  split; [apply lookup_insert_eq|]. split; [apply lookup_alter_eq|].
  repeat (split; [reflexivity|]).
  destruct onProgress; reflexivity.
Qed.

Lemma uploadYoutubeVideo_falls_back_witness :
  (20 <= 20)%nat /\
  getYoutubeVideoId "https://youtu.be/dQw4w9WgXcQ" = Some "dQw4w9WgXcQ" /\
  failure_of (unreachable (YoutubeDownload "https://youtu.be/dQw4w9WgXcQ" "720p")) =
    Some (ErrorObj "Failed to fetch") /\
  exists (l : positive) (v : VideoData) (st' : store) (effs : list effect),
    uploadYoutubeVideo 20 sample_ambient unreachable "https://youtu.be/dQw4w9WgXcQ" true None
        initial_store =
      Some (None, st', effs, Ret (with_data (video_value v))) /\
    objects st' !! l = Some v /\
    arrays st' !! mockVideos = cons l <$> arrays initial_store !! mockVideos /\
    vd_id v = "yt-dQw4w9WgXcQ" /\
    vd_thumbnail v = "https://img.youtube.com/vi/dQw4w9WgXcQ/mqdefault.jpg" /\
    vd_status v = completed /\
    progress_calls effs =
      VNum 5 :: map (fun k : nat => VNum (5 * Z.of_nat k)) (List.seq 1 20).
Proof.
  split; [lia|]. split; [reflexivity|]. split; [reflexivity|].
  exact (uploadYoutubeVideo_falls_back 20 sample_ambient unreachable
           "https://youtu.be/dQw4w9WgXcQ" "dQw4w9WgXcQ" true None initial_store
           (ErrorObj "Failed to fetch") (Nat.le_refl 20) eq_refl eq_refl).
Defined.


Lemma submissions_always_return_witness :
  unreachable (VideoProcess "v1" VNull) = Throw (ErrorObj "Failed to fetch") /\
  exists j env,
    processVideo unreachable "v1" VNull true None =
      (j, [Fetch (VideoProcess "v1" VNull)], Ret env) /\
    exactly_one env /\
    j = None /\ env = with_error (VStr "Failed to fetch").
Proof.
  split; [reflexivity|].
  destruct (submissions_always_return unreachable "v1" VNull true)
    as [(j & env & Hrun & Hone & Hfail) _].
  exists j, env. split; [exact Hrun|]. split; [exact Hone|].
  exact (Hfail (ErrorObj "Failed to fetch") eq_refl).
Defined.

Lemma mockUploadYoutubeVideo_settles (fuel : nat) (amb : ambient) (youtubeUrl : string)
    (onProgress : bool) (st : store) :
  (20 <= fuel)%nat ->
  (exists l ticks st' v,
     mockUploadYoutubeVideo fuel amb youtubeUrl onProgress st =
       Some (Fulfilled 4500 l, ticks, st') /\ objects st' !! l = Some v) \/
  mockUploadYoutubeVideo fuel amb youtubeUrl onProgress st =
    Some (Rejected 0 (ErrorObj "Invalid YouTube URL"), [], st).
Proof.
  intros Hfuel. destruct (getYoutubeVideoId youtubeUrl) as [videoId|] eqn:Hid.
  - left. rewrite (mockUploadYoutubeVideo_result fuel amb youtubeUrl videoId onProgress st Hfuel Hid).
    eexists _, _, _, _. split; [reflexivity|].
    unfold unshift, new_object, mutate_array. cbn [snd objects]. apply lookup_insert_eq.
  - right. unfold mockUploadYoutubeVideo. by rewrite Hid.
Qed.

(** X8: with a callback, [uploadYoutubeVideo] never rejects: whatever the
    network does and whatever the URL is, it first calls the callback
    with 5, then sends the submission, and returns an envelope with
    exactly one of data and error. *)
Theorem uploadYoutubeVideo_with_callback_returns (fuel : nat) (amb : ambient)
    (net : endpoint -> result Response) (youtubeUrl : string) (quality : option string)
    (st : store) :
  (20 <= fuel)%nat ->
  exists j st' effs env,
    uploadYoutubeVideo fuel amb net youtubeUrl true quality st =
      Some (j, st', OnProgress (VNum 5) ::
                    Fetch (YoutubeDownload youtubeUrl (default "720p" quality)) :: effs,
            Ret env) /\
    exactly_one env.
Proof.
  intros Hfuel.
  assert (Hmock :
    (exists l ticks st' v,
       mockUploadYoutubeVideo fuel amb youtubeUrl true st =
         Some (Fulfilled 4500 l, ticks, st') /\ objects st' !! l = Some v) \/
    mockUploadYoutubeVideo fuel amb youtubeUrl true st =
      Some (Rejected 0 (ErrorObj "Invalid YouTube URL"), [], st))
    by exact (mockUploadYoutubeVideo_settles fuel amb youtubeUrl true st Hfuel).
  run_body.
  destruct (net (YoutubeDownload _ _)) as [response|e]; reduce.
  - destruct (handleResponse response) as [res|e] eqn:Hres; reduce.
    + destruct (field_truthy (error res) || negb (field_truthy (data res))); reduce.
      * eexists _, _, _, _. split; [reflexivity|]. by apply (handleResponse_one_key response).
      * destruct (get_prop _ _); reduce.
        -- eexists _, _, _, _. split; [reflexivity|]. left. simpl. eauto.
        -- destruct Hmock as [(l & ticks & st' & v & -> & ->)| ->];
             eexists _, _, _, _; (split; [reflexivity|]);
             [left|right]; simpl; eauto.
    + destruct Hmock as [(l & ticks & st' & v & -> & ->)| ->];
        eexists _, _, _, _; (split; [reflexivity|]);
        [left|right]; simpl; eauto.
  - destruct Hmock as [(l & ticks & st' & v & -> & ->)| ->];
      eexists _, _, _, _; (split; [reflexivity|]);
      [left|right]; simpl; eauto.
Qed.

Lemma uploadYoutubeVideo_with_callback_returns_witness :
  (20 <= 20)%nat /\
  exists j st' effs env,
    uploadYoutubeVideo 20 sample_ambient unreachable "https://youtu.be/dQw4w9WgXcQ" true None
        initial_store =
      Some (j, st', OnProgress (VNum 5) ::
                    Fetch (YoutubeDownload "https://youtu.be/dQw4w9WgXcQ" "720p") :: effs,
            Ret env) /\
    exactly_one env.
Proof.
  split; [lia|].
  exact (uploadYoutubeVideo_with_callback_returns 20 sample_ambient unreachable
           "https://youtu.be/dQw4w9WgXcQ" None initial_store (Nat.le_refl 20)).
Defined.

(** Without a callback it can reject: the answer to the request for the
    result cannot be read. *)
Example uploadYoutubeVideo_without_callback_rejects :
  let unreadable := mkResponse true (Some "application/json")
                      (Throw (ErrorObj "Unexpected end of JSON input")) (Ret "") in
  let net := fun ep => match ep with
                       | JobResult _ => Ret unreadable
                       | _ => accepting finished_video ep
                       end in
  uploadYoutubeVideo 20 sample_ambient net "https://youtu.be/dQw4w9WgXcQ" false None
      initial_store =
    Some (None, initial_store,
          [Fetch (YoutubeDownload "https://youtu.be/dQw4w9WgXcQ" "720p");
           Fetch (JobResult (VStr "job-1"))],
          Throw (ErrorObj "Unexpected end of JSON input")).
Proof. reflexivity. Qed.

End OperationsMore.

(** ** More of the polling callback *)

Section PollingMore.



Lemma is_result_request_endpoint (j : job) : is_result_request (Fetch (result_endpoint j)) = true.
Proof. unfold result_endpoint. by destruct (job_of j). Qed.

Lemma step_result_requests j ev s s1 e1 :
  step j ev s = Some (s1, e1) ->
  length (List.filter is_result_request e1) =
    if completes_without_inline j ev then 1%nat else 0%nat.
Proof.
  destruct ev as [|n outcome|n outcome]; simpl; intros H.
  - destruct (active s); [|discriminate]. by injection H as <- <-.
  - destruct (take_pending n ProgressResponse (pending s)) as [ps|]; [|discriminate].
    injection H as H.
    destruct (poll_progress_cases j outcome (mkPolling (active s) (issued s) ps))
      as [(e & Hf & Hp)|[(response & r & -> & Hr & Ht & Hp)
                        |(response & r & d & -> & Hr & Hd & Ht)]].
    + rewrite Hp in H. injection H as <- <-.
      destruct outcome as [response|e']; [|reflexivity]. simpl in Hf.
      destruct (handleResponse response); [discriminate|reflexivity].
    + rewrite Hp in H. injection H as <- <-. rewrite Hr.
      unfold field_truthy in Ht. destruct (data r) as [d|]; [|reflexivity].
      by rewrite Ht.
    + rewrite (poll_progress_data j response r d _ Hr Hd Ht) in H.
      rewrite Hr, Hd, Ht. simpl.
      destruct (truthy (prop d "completed")); [destruct (truthy (inline_result j d))|];
        injection H as <- <-; cbn [List.filter andb negb];
        rewrite ?is_result_request_endpoint; reflexivity.
  - destruct (take_pending n FinalResponse (pending s)) as [ps|]; [|discriminate].
    rewrite poll_final_cases in H. injection H as <- <-. by destruct outcome.
Qed.

(** X10: over any run of the polling callback, the requests for the final
    result are as many as the answers to poll requests that report
    completed without an inline result that the callback uses: one for
    each, also for an answer that arrives after the timer was stopped. *)
Theorem result_requested_per_completed_answer (j : job) (evs : list event)
    (s s' : polling) (effs : list effect) :
  run j evs s = Some (s', effs) ->
  length (List.filter is_result_request effs) =
    length (List.filter (completes_without_inline j) evs).
Proof.
  revert s effs. induction evs as [|ev evs IH]; intros s effs H; simpl in H.
  - by injection H as <- <-.
  - destruct (step j ev s) as [[s1 e1]|] eqn:Hstep; [|discriminate].
    destruct (run j evs s1) as [[s2 e2]|] eqn:Hrun; [|discriminate].
    injection H as <- <-.
    rewrite List.filter_app, length_app, (step_result_requests _ _ _ _ _ Hstep),
      (IH _ _ Hrun).
    simpl. by destruct (completes_without_inline j ev).
Qed.

Lemma result_requested_per_completed_answer_witness :
  let j := mkJob (ProcessVideo "v1") (VStr "job-1") in
  let evs := [TimerFires; TimerFires;
              ProgressSettles 0 (progress_answer 100 true);
              ProgressSettles 1 (progress_answer 100 true)] in
  let effs := [Fetch (JobProgress (VStr "job-1")); Fetch (JobProgress (VStr "job-1"));
               OnProgress (VNum 100); ClearInterval; Fetch (VideoById "v1");
               OnProgress (VNum 100); ClearInterval; Fetch (VideoById "v1")] in
  run j evs polling_started =
    Some (mkPolling false 4 [(3%nat, FinalResponse); (2%nat, FinalResponse)], effs) /\
  length (List.filter is_result_request effs) = 2%nat.
Proof.
  intros j evs effs. split; [reflexivity|].
  exact (result_requested_per_completed_answer j evs polling_started _ effs eq_refl).
Defined.

Lemma run_app j evs1 evs2 s s1 e1 :
  run j evs1 s = Some (s1, e1) ->
  run j (evs1 ++ evs2) s =
    match run j evs2 s1 with
    | Some (s2, e2) => Some (s2, e1 ++ e2)
    | None => None
    end.
Proof.
  revert s e1. induction evs1 as [|ev evs1 IH]; intros s e1 H; simpl in *.
  - injection H as <- <-. by destruct (run j evs2 s) as [[]|].
  - destruct (step j ev s) as [[sa ea]|]; [|discriminate].
    destruct (run j evs1 sa) as [[sb eb]|] eqn:Hrun; [|discriminate].
    injection H as <- <-. rewrite (IH _ _ Hrun).
    destruct (run j evs2 sb) as [[sc ec]|]; [|reflexivity]. by rewrite app_assoc.
Qed.

Lemma progress_answer_step (j : job) (s : polling) (p : Z) (c : bool) :
  poll_progress j (progress_answer p c) s =
    if c
    then (mkPolling false (S (issued s)) ((issued s, FinalResponse) :: pending s),
          [OnProgress (VNum p); ClearInterval; Fetch (result_endpoint j)], Ret tt)
    else (s, [OnProgress (VNum p)], Ret tt).
Proof.
  unfold progress_answer.
  set (d := VObj [("progress", VNum p); ("completed", VBool c)]).
  rewrite (poll_progress_data j (json_response true d) (with_data d) d s
             eq_refl eq_refl eq_refl).
  change (prop d "completed") with (VBool c). change (prop d "progress") with (VNum p).
  replace (inline_result j d) with VUndefined
    by (unfold inline_result; destruct (job_of j); reflexivity).
  by destruct c.
Qed.

Lemma polls_in_turn j values k :
  run j (in_turn k (map (fun p => progress_answer p false) values)) (mkPolling true k []) =
    Some (mkPolling true (k + length values) [], polled_in_turn j values).
Proof.
  revert k. induction values as [|p values IH]; intros k.
  - simpl. by rewrite Nat.add_0_r.
  - cbn [map in_turn run]. cbn [step active].
    change (fst (poll_request j (mkPolling true k [])))
      with (mkPolling true (S k) [(k, ProgressResponse)], [Fetch (JobProgress (jobId j))]).
    cbn [step pending take_pending active issued]. rewrite Nat.eqb_refl.
    rewrite progress_answer_step. cbn [fst].
    rewrite IH. cbn [length].
    replace (S k + length values)%nat with (k + S (length values))%nat by lia.
    reflexivity.
Qed.

(** X11: a job whose polls are each answered before the next tick, with any
    progress values and completed at the last one: the callback sends one
    poll request per answer, hands each value to the caller in order,
    stops the timer at the last answer and sends exactly one request for
    the result, which is the only request left unanswered. *)
Theorem polling_in_turn (j : job) (values : list Z) (last : Z) :
  run j (in_turn 0 (map (fun p => progress_answer p false) values ++
                    [progress_answer last true]))
      polling_started =
    Some (mkPolling false (S (S (length values))) [(S (length values), FinalResponse)],
          polled_in_turn j values ++
          [Fetch (JobProgress (jobId j)); OnProgress (VNum last); ClearInterval;
           Fetch (result_endpoint j)]) /\
  progress_calls
    (polled_in_turn j values ++
     [Fetch (JobProgress (jobId j)); OnProgress (VNum last); ClearInterval;
      Fetch (result_endpoint j)]) = map VNum (values ++ [last]).
Proof.
  split.
  - assert (Hsplit : forall k (xs ys : list (result Response)),
              in_turn k (xs ++ ys) = in_turn k xs ++ in_turn (k + length xs) ys).
    { intros k xs. revert k. induction xs as [|x xs IH]; intros k ys; simpl.
      - by rewrite Nat.add_0_r.
      - rewrite IH. by replace (S k + length xs)%nat with (k + S (length xs))%nat by lia. }
    rewrite Hsplit, length_map. unfold polling_started.
    rewrite (run_app j _ _ _ _ _ (polls_in_turn j values 0)).
    cbn [Nat.add in_turn run step active].
    change (fst (poll_request j (mkPolling true (length values) [])))
      with (mkPolling true (S (length values)) [(length values, ProgressResponse)],
            [Fetch (JobProgress (jobId j))]).
    cbn [step pending take_pending active issued]. rewrite Nat.eqb_refl.
    rewrite progress_answer_step. reflexivity.
  - assert (Hcalls : progress_calls (polled_in_turn j values) = map VNum values).
    { induction values as [|p values IH]; [reflexivity|].
      change (progress_calls (polled_in_turn j (p :: values)))
        with (VNum p :: progress_calls (polled_in_turn j values)).
      by rewrite IH. }
    rewrite progress_calls_app, Hcalls, map_app. reflexivity.
Qed.

End PollingMore.

(** ** More of the validation of files *)

Section ValidationMore.

Lemma validate_each_filter (supportedFormats : list string) (maxFileSize : Z)
    (fileArray : list File) :
  validate_each supportedFormats maxFileSize fileArray =
    (List.filter (acceptable supportedFormats maxFileSize) fileArray,
     map (fun f => Some (rejection_message supportedFormats maxFileSize f))
       (List.filter (fun f => negb (acceptable supportedFormats maxFileSize f)) fileArray)).
Proof.
  induction fileArray as [|file rest IH]; cbn [validate_each List.filter map]; [reflexivity|].
  rewrite IH.
  destruct (existsb (String.eqb (extension_of (file_name file))) supportedFormats) eqn:He;
    cbn [negb].
  - destruct (file_size file >? maxFileSize * 1024 * 1024) eqn:Hs.
    + assert (Ha : acceptable supportedFormats maxFileSize file = false)
        by (unfold acceptable; by rewrite He, Hs).
      assert (Hm : rejection_message supportedFormats maxFileSize file =
                     too_large_message maxFileSize (file_name file))
        by (unfold rejection_message; by rewrite He).
      rewrite Ha. cbn [negb map]. by rewrite Hm.
    + assert (Ha : acceptable supportedFormats maxFileSize file = true)
        by (unfold acceptable; by rewrite He, Hs).
      by rewrite Ha.
  - assert (Ha : acceptable supportedFormats maxFileSize file = false)
      by (unfold acceptable; by rewrite He).
    assert (Hm : rejection_message supportedFormats maxFileSize file =
                   unsupported_message supportedFormats (extension_of (file_name file)))
      by (unfold rejection_message; by rewrite He).
    rewrite Ha. cbn [negb map]. by rewrite Hm.
Qed.

(** X12: [validateFiles] is a filter: it returns, in their order, the files
    whose extension is supported and whose size is within the limit, and
    after resetting the error it calls [setError] once for each other
    file, in their order; every file of the batch is either returned or
    reported. *)
Theorem validateFiles_keeps_acceptable (supportedFormats : list string) (maxFileSize : Z)
    (fileList : list File) :
  (validateFiles supportedFormats maxFileSize fileList).1 =
    List.filter (acceptable supportedFormats maxFileSize) fileList /\
  (validateFiles supportedFormats maxFileSize fileList).2 =
    None :: map (fun f => Some (rejection_message supportedFormats maxFileSize f))
              (List.filter (fun f => negb (acceptable supportedFormats maxFileSize f))
                 fileList) /\
  (length (validateFiles supportedFormats maxFileSize fileList).1 +
   length (validateFiles supportedFormats maxFileSize fileList).2 =
   S (length fileList))%nat.
Proof.
  unfold validateFiles. rewrite validate_each_filter. cbn [fst snd length].
  split; [reflexivity|]. split; [reflexivity|].
  rewrite length_map. f_equal.
  induction fileList as [|f fs IH]; cbn [List.filter length]; [reflexivity|].
  destruct (acceptable supportedFormats maxFileSize f); cbn [negb length]; lia.
Qed.

Lemma split_dot_lower (s : string) :
  split_dot (toLowerCase s) = map toLowerCase (split_dot s).
Proof.
  induction s as [|c s IH]; [reflexivity|].
  cbn [toLowerCase split_dot].
  assert (Hdot : Ascii.eqb (lower_char c) "."%char = Ascii.eqb c "."%char).
  { destruct c as [[] [] [] [] [] [] [] []]; reflexivity. }
  rewrite Hdot, IH. destruct (Ascii.eqb c "."%char); [reflexivity|].
  destruct (split_dot s) as [|seg segs]; reflexivity.
Qed.

Lemma toLowerCase_idem (s : string) : toLowerCase (toLowerCase s) = toLowerCase s.
Proof.
  induction s as [|c s IH]; [reflexivity|]. cbn [toLowerCase]. rewrite IH. f_equal.
  destruct c as [[] [] [] [] [] [] [] []]; reflexivity.
Qed.

Lemma extension_of_lower (name : string) :
  extension_of (toLowerCase name) = extension_of name.
Proof.
  unfold extension_of, pop. rewrite split_dot_lower.
  rewrite fmap_last. destruct (last (split_dot name)) as [seg|]; [|reflexivity].
  simpl. by rewrite toLowerCase_idem.
Qed.

(** X13: the letter case of a file name does not matter to the validation: a
    file and the file with the same name in lower case are both accepted
    or both refused. *)
Theorem validation_ignores_case (supportedFormats : list string) (maxFileSize : Z)
    (name : string) (size : Z) :
  acceptable supportedFormats maxFileSize (mkFile (toLowerCase name) size) =
  acceptable supportedFormats maxFileSize (mkFile name size).
Proof. unfold acceptable. cbn [file_name file_size]. by rewrite extension_of_lower. Qed.

(** X14: what a batch of files leaves behind, up to the start of the upload.
    When a file of the batch is valid, the first valid one is uploaded and
    the error is cleared, also when other files of the batch were refused.
    When none is valid, nothing is uploaded and the error is the message
    for the last file of the batch. *)
Theorem batch_outcome (supportedFormats : list string) (maxFileSize : Z)
    (files : list File) (before : option string) :
  files <> [] ->
  match List.filter (acceptable supportedFormats maxFileSize) files with
  | first :: _ =>
      (handleFileInputChange supportedFormats maxFileSize files).2 = Some first /\
      final_error before (handleFileInputChange supportedFormats maxFileSize files).1 = None
  | [] =>
      (handleFileInputChange supportedFormats maxFileSize files).2 = None /\
      final_error before (handleFileInputChange supportedFormats maxFileSize files).1 =
        rejection_message supportedFormats maxFileSize <$> last files
  end.
Proof.
  intros Hne. unfold handleFileInputChange, validateFiles.
  rewrite validate_each_filter.
  destruct files as [|f0 fs]; [done|]. cbn [length Nat.ltb Nat.leb].
  destruct (List.filter (acceptable supportedFormats maxFileSize) (f0 :: fs))
    as [|first others] eqn:Hfilter; cbn [fst snd].
  - split; [reflexivity|].
    assert (Hall : List.filter (fun f => negb (acceptable supportedFormats maxFileSize f))
                     (f0 :: fs) = f0 :: fs).
    { clear Hne. revert Hfilter. generalize (f0 :: fs). intros l.
      induction l as [|f l IH]; cbn [List.filter]; [done|].
      destruct (acceptable supportedFormats maxFileSize f); [discriminate|].
      intros H. cbn [negb]. by rewrite IH. }
    rewrite Hall. unfold final_error.
    assert (Hlast : forall (g : File -> option string) l x,
              last (x :: map g l) =
                Some match last l with Some f => g f | None => x end).
    { intros g l. induction l as [|f l IH]; intros x; [reflexivity|].
      cbn [map]. rewrite last_cons_cons, IH, last_cons.
      by destruct (last l). }
    rewrite Hlast. rewrite last_cons. by destruct (last fs).
  - split; [reflexivity|]. unfold final_error. by rewrite last_snoc.
Qed.

Lemma batch_outcome_witness :
  let big := mkFile "holiday.MP4" (600 * 1024 * 1024) in
  let notes := mkFile "notes.txt" 12 in
  [big; notes] <> [] /\
  (handleFileInputChange supportedFormats_default maxFileSize_default [big; notes]).2 = None /\
  final_error None
    (handleFileInputChange supportedFormats_default maxFileSize_default [big; notes]).1 =
    Some "Unsupported file format: .txt. Please use: .mp4, .mov, .avi, .mkv, .webm".
Proof.
  intros big notes.
  assert (Hne : [big; notes] <> []) by discriminate.
  split; [exact Hne|].
  exact (batch_outcome supportedFormats_default maxFileSize_default [big; notes] None Hne).
Defined.

End ValidationMore.

(** ** Authentication *)

Section Authentication.

(** X15: [login] never rejects and returns an envelope with exactly one of
    data and error. It writes the storage only when the data of the
    envelope has a truthy token: then it stores the token and the user,
    and nothing else; otherwise the storage stays as it is. *)
Theorem login_stores_token_only (rt : builtins) (outcome : result Response)
    (localStorage : gmap string string) :
  exists (ls' : gmap string string) (env : ApiResponse),
    login rt outcome localStorage = (ls', env) /\
    exactly_one env /\
    ((ls' = localStorage /\
      truthy (prop (default VUndefined (data env)) "token") = false) \/
     (exists d,
        data env = Some d /\ truthy d = true /\ truthy (prop d "token") = true /\
        ls' = <["user" := stringify rt (prop d "user")]>
                (<["authToken" := ToString rt (prop d "token")]> localStorage))).
Proof.
  unfold login. destruct outcome as [response|e]; simpl.
  - destruct (handleResponse response) as [result|e] eqn:Hres; simpl.
    + pose proof (handleResponse_one_key response result Hres) as Hone.
      unfold field_truthy. destruct (data result) as [d|] eqn:Hd; simpl.
      * destruct (truthy d) eqn:Ht.
        -- rewrite (get_prop_truthy d "token" Ht). simpl.
           destruct (truthy (prop d "token")) eqn:Htok.
           ++ rewrite (get_prop_truthy d "user" Ht). simpl.
              eexists _, _. split; [reflexivity|]. split; [done|]. right.
              exists d. by rewrite Hd.
           ++ eexists _, _. split; [reflexivity|]. split; [done|]. left.
              by rewrite Hd.
        -- eexists _, _. split; [reflexivity|]. split; [done|]. left.
           rewrite Hd. simpl. split; [done|].
           unfold prop. destruct d; simpl in *; try done.
      * eexists _, _. split; [reflexivity|]. split; [done|]. left. by rewrite Hd.
    + eexists _, _. split; [reflexivity|]. split; [right; simpl; eauto|]. by left.
  - eexists _, _. split; [reflexivity|]. split; [right; simpl; eauto|]. by left.
Qed.

(** X16: after a login that is answered with a token, the requests carry the
    header Authorization: Bearer followed by the token. A logout whose
    request is answered, with any status, removes the token and the user,
    so that the header is gone; a logout whose request is rejected leaves
    the storage as it is and writes to the console. *)
Theorem login_then_logout (rt : builtins) (response : Response) (d : value)
    (token : string) (localStorage : gmap string string) :
  handleResponse response = Ret (with_data d) ->
  truthy d = true ->
  prop d "token" = VStr token ->
  token <> "" ->
  ToString rt (VStr token) = token ->
  let ls1 := (login rt (Ret response) localStorage).1 in
  getAuthHeaders ls1 =
    [("Content-Type", "application/json"); ("Authorization", "Bearer " +:+ token)] /\
  (forall answer : Response,
     let ls2 := (logout (Ret answer) ls1).1 in
     getAuthHeaders ls2 = [("Content-Type", "application/json")] /\
     ls2 !! "user" = None /\
     (logout (Ret answer) ls1).2 = []) /\
  (forall e : thrown, logout (Throw e) ls1 = (ls1, [ConsoleError e])).
Proof.
  intros Hres Hd Htok Hne Hstr ls1.
  assert (Hls1 : ls1 = <["user" := stringify rt (prop d "user")]>
                         (<["authToken" := token]> localStorage)).
  { unfold ls1, login. simpl. rewrite Hres. simpl. rewrite Hd.
    rewrite (get_prop_truthy d "token" Hd). simpl. rewrite Htok. simpl.
    assert (Ht : negb (token =? "")%string = true) by (by apply negb_true_iff, String.eqb_neq).
    rewrite Ht. rewrite (get_prop_truthy d "user" Hd). simpl. by rewrite Hstr. }
  split; [|split].
  - rewrite Hls1. unfold getAuthHeaders.
    rewrite lookup_insert_ne by done. rewrite lookup_insert_eq.
    apply String.eqb_neq in Hne. by rewrite Hne.
  - intros answer ls2. unfold ls2, logout. cbn [fst snd]. unfold getAuthHeaders.
    rewrite lookup_delete_ne by done. rewrite lookup_delete_eq.
    split; [reflexivity|]. split; [apply lookup_delete_eq|reflexivity].
  - reflexivity.
Qed.

Lemma login_then_logout_witness :
  let rt := mkBuiltins (fun v => match v with VStr s => s | _ => "" end) (fun _ => "{}") in
  let d := VObj [("token", VStr "abc123"); ("user", VObj [("name", VStr "Ada")])] in
  let ls1 := (login rt (Ret (json_response true d)) ∅).1 in
  handleResponse (json_response true d) = Ret (with_data d) /\
  truthy d = true /\
  prop d "token" = VStr "abc123" /\
  "abc123" <> "" /\
  ToString rt (VStr "abc123") = "abc123" /\
  getAuthHeaders ls1 =
    [("Content-Type", "application/json"); ("Authorization", "Bearer abc123")] /\
  (forall e : thrown, logout (Throw e) ls1 = (ls1, [ConsoleError e])).
Proof.
  intros rt d ls1.
  assert (Hne : "abc123" <> "") by discriminate.
  destruct (login_then_logout rt (json_response true d) d "abc123" ∅
              eq_refl eq_refl eq_refl Hne eq_refl) as (Hin & _ & Hfail).
  split; [reflexivity|]. split; [reflexivity|]. split; [reflexivity|].
  split; [exact Hne|]. split; [reflexivity|]. split; [exact Hin|exact Hfail].
Defined.

End Authentication.

(** ** The history of videos *)

Section History.
Import VideoHistory.

Lemma elem_of_filter_bool {A : Type} (f : A -> bool) (xs : list A) (x : A) :
  x ∈ List.filter f xs <-> x ∈ xs /\ f x = true.
Proof. rewrite !list_elem_of_In. apply filter_In. Qed.

Lemma NoDup_filter_bool {A : Type} (f : A -> bool) (xs : list A) :
  NoDup xs -> NoDup (List.filter f xs).
Proof.
  induction 1 as [|x xs Hx Hnd IH]; cbn [List.filter]; [constructor|].
  destruct (f x); [|done]. constructor; [|done].
  rewrite elem_of_filter_bool. tauto.
Qed.

(** X17: [toggleSelectVideo] changes whether the id is selected and nothing
    else, for every selection, also one that holds an id more than once:
    the id is selected after exactly when it was not before, and the
    other ids are selected after exactly when they were before. A
    selection without duplicates stays without duplicates. *)
Theorem toggleSelectVideo_toggles (id : string) (prev : list string) :
  (id ∈ toggleSelectVideo id prev <-> id ∉ prev) /\
  (forall other, other <> id -> other ∈ toggleSelectVideo id prev <-> other ∈ prev) /\
  (NoDup prev -> NoDup (toggleSelectVideo id prev)).
Proof.
  unfold toggleSelectVideo.
  destruct (existsb (String.eqb id) prev) eqn:Hex.
  - apply existsb_eqb_elem in Hex. split; [|split].
    + rewrite elem_of_filter_bool, String.eqb_refl. simpl. split; [by intros []|done].
    + intros other Hne. rewrite elem_of_filter_bool.
      apply String.eqb_neq in Hne. rewrite Hne. simpl. tauto.
    + apply NoDup_filter_bool.
  - assert (Hnot : id ∉ prev).
    { intros Hin. apply existsb_eqb_elem in Hin. congruence. }
    split; [|split].
    + rewrite elem_of_app, list_elem_of_singleton. tauto.
    + intros other Hne. rewrite elem_of_app, list_elem_of_singleton. tauto.
    + intros Hnd. apply NoDup_app. split; [done|]. split; [|apply NoDup_singleton].
      intros x Hx Hx'. apply list_elem_of_singleton in Hx'. by subst.
Qed.

Lemma toggleSelectVideo_toggles_witness :
  NoDup ["1"; "3"] /\
  toggleSelectVideo "2" ["1"; "3"] = ["1"; "3"; "2"] /\
  NoDup (toggleSelectVideo "2" ["1"; "3"]) /\
  toggleSelectVideo "1" ["1"; "3"; "1"] = ["3"] /\
  ("1" ∉ toggleSelectVideo "1" ["1"; "3"; "1"]) /\
  ("3" ∈ toggleSelectVideo "1" ["1"; "3"; "1"]).
Proof.
  assert (Hnd : NoDup ["1"; "3"]).
  { constructor; [|constructor; [apply not_elem_of_nil|constructor]].
    intros Hin. apply list_elem_of_singleton in Hin. discriminate. }
  assert (Hne : "3" <> "1") by discriminate.
  assert (H1 : "1" ∈ ["1"; "3"; "1"]) by (left).
  assert (H3 : "3" ∈ ["1"; "3"; "1"]) by (right; left).
  destruct (toggleSelectVideo_toggles "2" ["1"; "3"]) as (_ & _ & Hkeep).
  destruct (toggleSelectVideo_toggles "1" ["1"; "3"; "1"]) as (Hid & Hother & _).
  split; [exact Hnd|]. split; [reflexivity|]. split; [exact (Hkeep Hnd)|].
  split; [reflexivity|]. split.
  - intros Hin. exact (proj1 Hid Hin H1).
  - exact (proj2 (Hother "3" Hne) H3).
Defined.




(** A deletion that is refused ends the loop: what was deleted before it
    is gone from the list, the rest stays, the selection is emptied. *)
Example handleDeleteSelected_breaks :
  let a := mkVideoData "1" "a.mp4" "YouTube" "2023-06-15" completed "a.jpg" "2:15" "1 MB" None in
  let b := mkVideoData "2" "b.mp4" "YouTube" "2023-06-15" completed "b.jpg" "2:15" "1 MB" None in
  let c := mkVideoData "3" "c.mp4" "YouTube" "2023-06-15" completed "c.jpg" "2:15" "1 MB" None in
  let net := fun id : string =>
    if String.eqb id "2"
    then Ret (json_response false (VObj [("message", VStr "Video is locked")]))
    else Ret (json_response true VNull) in
  handleDeleteSelected net (mkHistory [a; b; c] ["1"; "2"; "3"] None) =
    mkHistory [b; c] [] (Some (VStr "Video is locked")).
Proof. reflexivity. Qed.

End History.

(** ** The two patterns for YouTube URLs *)

Section Patterns.
Import RegExp.

Lemma star_nil (p : ascii -> bool) k caps :
  run (Star (Class p)) k (MState "" caps) = k (MState "" caps).
Proof. reflexivity. Qed.

Lemma star_peel (p : ascii -> bool) k c s caps :
  run (Star (Class p)) k (MState (String c s) caps) =
    if p c
    then match run (Star (Class p)) k (MState s caps) with
         | Some r => Some r
         | None => k (MState (String c s) caps)
         end
    else k (MState (String c s) caps).
Proof.
  assert (Hlt : (String.length s <? S (String.length s))%nat = true)
    by (apply Nat.ltb_lt; lia).
  change (run (Star (Class p)) k (MState (String c s) caps))
    with (match (if p c
                 then if (String.length s <? S (String.length s))%nat
                      then run (Star (Class p)) k (MState s caps) else None
                 else None) with
          | Some r => Some r
          | None => k (MState (String c s) caps)
          end).
  rewrite Hlt. by destruct (p c).
Qed.

(** Greedy: when every character passes and the rest of the pattern
    matches at the end, that is the match. *)
Lemma star_takes_all (p : ascii -> bool) k s caps r :
  all_chars p s = true ->
  k (MState "" caps) = Some r ->
  run (Star (Class p)) k (MState s caps) = Some r.
Proof.
  intros Hall Hk. induction s as [|c s IH]; [by rewrite star_nil|].
  simpl in Hall. apply andb_true_iff in Hall as [Hc Hs].
  by rewrite star_peel, Hc, (IH Hs).
Qed.

(** Backtracking: the match is at the last place where the rest of the
    pattern matches. *)
Lemma star_fails_after (p : ascii -> bool) k s caps :
  (forall before t, s = before +:+ t -> k (MState t caps) = None) ->
  run (Star (Class p)) k (MState s caps) = None.
Proof.
  induction s as [|c s IH]; intros Hk.
  - rewrite star_nil. by apply (Hk "").
  - rewrite star_peel. rewrite IH.
    + rewrite (Hk "" (String c s) eq_refl). by destruct (p c).
    + intros before t ->. by apply (Hk (String c before)).
Qed.

Lemma star_finds_last (p : ascii -> bool) k pre post caps r :
  all_chars p pre = true ->
  (forall before t, post = before +:+ t -> before <> "" -> k (MState t caps) = None) ->
  k (MState post caps) = Some r ->
  run (Star (Class p)) k (MState (pre +:+ post) caps) = Some r.
Proof.
  intros Hpre Hfail Hk. induction pre as [|c pre IH].
  - change ("" +:+ post) with post. destruct post as [|c post].
    + by rewrite star_nil.
    + rewrite star_peel, star_fails_after.
      * by destruct (p c).
      * intros before t Heq. apply (Hfail (String c before)); [by rewrite Heq|done].
  - simpl in Hpre. apply andb_true_iff in Hpre as [Hc Hpre].
    change (String c pre +:+ post) with (String c (pre +:+ post)).
    by rewrite star_peel, Hc, (IH Hpre).
Qed.

Lemma run_lit (w : string) k t caps :
  run (lit w) k (MState (w +:+ t) caps) = k (MState t caps).
Proof.
  revert caps. induction w as [|c w IH]; intros caps; [reflexivity|].
  change (run (lit (String c w)) k (MState (String c w +:+ t) caps))
    with (if Ascii.eqb c c then run (lit w) k (MState (w +:+ t) caps) else None).
  by rewrite Ascii.eqb_refl, IH.
Qed.

Lemma times_class (p : ascii -> bool) (s : string) k t caps :
  all_chars p s = true ->
  run (times (String.length s) (Class p)) k (MState (s +:+ t) caps) = k (MState t caps).
Proof.
  revert caps. induction s as [|c s IH]; intros caps Hall; [reflexivity|].
  simpl in Hall. apply andb_true_iff in Hall as [Hc Hs].
  change (run (times (String.length (String c s)) (Class p)) k
            (MState (String c s +:+ t) caps))
    with (if p c then run (times (String.length s) (Class p)) k (MState (s +:+ t) caps)
          else None).
  by rewrite Hc, IH.
Qed.

Lemma all_chars_app (p : ascii -> bool) (s t : string) :
  all_chars p (s +:+ t) = all_chars p s && all_chars p t.
Proof. induction s as [|c s IH]; simpl; [done|]. by rewrite IH, andb_assoc. Qed.

Lemma all_chars_weaken (p q : ascii -> bool) (s : string) :
  (forall c, p c = true -> q c = true) -> all_chars p s = true -> all_chars q s = true.
Proof.
  intros Hpq. induction s as [|c s IH]; simpl; [done|].
  intros [Hc Hs]%andb_true_iff. by rewrite (Hpq c Hc), IH.
Qed.

Lemma id_char_no_terminator c : is_id_char c = true -> no_terminator c = true.
Proof. destruct c as [[] [] [] [] [] [] [] []]; vm_compute; congruence. Qed.

Lemma id_char_no_delimiter c : is_id_char c = true -> no_delimiter c = true.
Proof. destruct c as [[] [] [] [] [] [] [] []]; vm_compute; congruence. Qed.

Lemma id_char_no_slash c : is_id_char c = true -> no_slash c = true.
Proof. destruct c as [[] [] [] [] [] [] [] []]; vm_compute; congruence. Qed.

Lemma append_empty_r (s : string) : s +:+ "" = s.
Proof.
  induction s as [|c s IH]; [done|].
  change (String c (s +:+ "") = String c s). by rewrite IH.
Qed.

Lemma accepted_urls (scheme www host id tail : string) :
  scheme ∈ [""; "http://"; "https://"] ->
  www ∈ [""; "www."] ->
  host ∈ ["youtube.com/watch?v="; "youtu.be/"] ->
  String.length id = 11%nat ->
  all_chars is_id_char id = true ->
  all_chars no_terminator tail = true ->
  validateYoutubeUrl (scheme +:+ www +:+ host +:+ id +:+ tail) = true.
Proof.
  intros Hscheme Hwww Hhost Hlen Hid Htail.
  unfold validateYoutubeUrl, test_whole.
  set (kend := fun st : mstate => if String.eqb (rest st) "" then Some (caps st) else None).
  assert (Hend : forall caps0,
    run (Seq (Group 4 (times 11 id_char)) (Star dot)) kend (MState (id +:+ tail) caps0) =
      Some ((4%nat, consumed (MState (id +:+ tail) caps0) (MState tail caps0)) :: caps0)).
  { intros caps0. rewrite <- Hlen.
    change (run (Seq (Group 4 (times (String.length id) id_char)) (Star dot)) kend
              (MState (id +:+ tail) caps0))
      with (run (times (String.length id) (Class is_id_char))
              (fun st' => run (Star (Class no_terminator)) kend
                 (MState (rest st')
                    ((4%nat, consumed (MState (id +:+ tail) caps0) st') :: caps st')))
              (MState (id +:+ tail) caps0)).
    rewrite times_class by done. cbn [rest caps].
    by apply star_takes_all. }
  generalize dependent (id +:+ tail). intros s Hend.
  change (run youtubeRegex kend) with
    (run (Opt (Group 1 (Seq (lit "http") (Seq (Opt (chr "s")) (lit "://")))))
       (run (Opt (Group 2 (lit "www.")))
          (run (Group 3 (Alt (lit "youtube.com/watch?v=") (lit "youtu.be/")))
             (run (Seq (Group 4 (times 11 id_char)) (Star dot)) kend)))).
  generalize dependent (run (Seq (Group 4 (times 11 id_char)) (Star dot)) kend).
  intros K HK.
  repeat (match goal with
          | H : _ ∈ _ :: _ |- _ => apply elem_of_cons in H as [->|H]
          | H : _ ∈ [] |- _ => by apply elem_of_nil in H
          end);
  cbv -[consumed]; rewrite ?HK; try reflexivity.
Qed.

(** X19: the form accepts the usual URLs: an optional http:// or https://,
    an optional www., then youtube.com/watch?v= or youtu.be/, an
    identifier of eleven letters, digits, underscores or hyphens, and any
    tail on the same line. For these, [validateYoutubeUrl] holds and
    [handleYoutubeUpload] hands the URL to [uploadYoutubeVideo] with the
    selected quality. *)
Theorem handleYoutubeUpload_accepts (scheme www host id tail quality : string) :
  scheme ∈ [""; "http://"; "https://"] ->
  www ∈ [""; "www."] ->
  host ∈ ["youtube.com/watch?v="; "youtu.be/"] ->
  String.length id = 11%nat ->
  all_chars is_id_char id = true ->
  all_chars no_terminator tail = true ->
  let url := scheme +:+ www +:+ host +:+ id +:+ tail in
  validateYoutubeUrl url = true /\
  handleYoutubeUpload url quality = Some (url, Some quality).
Proof.
  intros Hscheme Hwww Hhost Hlen Hid Htail url.
  assert (Hvalid : validateYoutubeUrl url = true) by (by apply accepted_urls).
  split; [done|]. unfold handleYoutubeUpload. rewrite Hvalid.
  destruct (String.eqb url "") eqn:Hempty; [|done].
  apply String.eqb_eq in Hempty. rewrite Hempty in Hvalid. discriminate.
Qed.

Lemma handleYoutubeUpload_accepts_witness :
  validateYoutubeUrl "https://www.youtube.com/watch?v=dQw4w9WgXcQ&t=42" = true /\
  handleYoutubeUpload "https://www.youtube.com/watch?v=dQw4w9WgXcQ&t=42" "1080p" =
    Some ("https://www.youtube.com/watch?v=dQw4w9WgXcQ&t=42", Some "1080p").
Proof.
  refine (handleYoutubeUpload_accepts "https://" "www." "youtube.com/watch?v="
            "dQw4w9WgXcQ" "&t=42" "1080p" _ _ _ eq_refl eq_refl eq_refl);
    set_solver.
Defined.

Lemma run_seq a b k st : run (Seq a b) k st = run a (run b k) st.
Proof. reflexivity. Qed.

Lemma run_lit_inv (w : string) k t caps r :
  run (lit w) k (MState t caps) = Some r ->
  exists t', t = w +:+ t' /\ k (MState t' caps) = Some r.
Proof.
  revert t. induction w as [|a w IH]; intros t H.
  - by exists t.
  - destruct t as [|c t]; [discriminate|].
    change (run (lit (String a w)) k (MState (String c t) caps))
      with (if Ascii.eqb a c then run (lit w) k (MState t caps) else None) in H.
    destruct (Ascii.eqb a c) eqn:Hac; [|discriminate].
    apply Ascii.eqb_eq in Hac as ->.
    destruct (IH _ H) as (t' & -> & Hk). by exists t'.
Qed.

Lemma run_class_inv (p : ascii -> bool) k t caps r :
  run (Class p) k (MState t caps) = Some r ->
  exists c t', t = String c t' /\ p c = true /\ k (MState t' caps) = Some r.
Proof.
  destruct t as [|c t]; [discriminate|].
  change (run (Class p) k (MState (String c t) caps))
    with (if p c then k (MState t caps) else None).
  destruct (p c) eqn:Hc; [|discriminate]. intros H. by exists c, t.
Qed.

Lemma run_alt_inv a b k st r :
  run (Alt a b) k st = Some r -> run a k st = Some r \/ run b k st = Some r.
Proof.
  change (run (Alt a b) k st)
    with (match run a k st with Some c => Some c | None => run b k st end).
  destruct (run a k st); [by left | by right].
Qed.

Lemma opt_chr_skip (a c : ascii) s k caps :
  Ascii.eqb a c = false ->
  run (Opt (chr a)) k (MState (String c s) caps) = k (MState (String c s) caps).
Proof.
  intros H.
  change (run (Opt (chr a)) k (MState (String c s) caps))
    with (match (if Ascii.eqb a c then k (MState s caps) else None) with
          | Some r => Some r
          | None => k (MState (String c s) caps)
          end).
  by rewrite H.
Qed.

Lemma opt_chr_take (a : ascii) s k caps r :
  k (MState s caps) = Some r ->
  run (Opt (chr a)) k (MState (String a s) caps) = Some r.
Proof.
  intros H.
  change (run (Opt (chr a)) k (MState (String a s) caps))
    with (match (if Ascii.eqb a a then k (MState s caps) else None) with
          | Some r => Some r
          | None => k (MState (String a s) caps)
          end).
  by rewrite Ascii.eqb_refl, H.
Qed.

Lemma substring_whole (s : string) : String.substring 0 (String.length s) s = s.
Proof. induction s as [|c s IH]; simpl; [done|]. by rewrite IH. Qed.

Lemma group_star_all (n : nat) (p : ascii -> bool) k s caps r :
  all_chars p s = true ->
  k (MState "" ((n, s) :: caps)) = Some r ->
  run (Group n (Star (Class p))) k (MState s caps) = Some r.
Proof.
  intros Hall Hk.
  change (run (Group n (Star (Class p))) k (MState s caps))
    with (run (Star (Class p))
            (fun st' => k (MState (rest st') ((n, consumed (MState s caps) st') :: RegExp.caps st')))
            (MState s caps)).
  apply star_takes_all; [done|].
  unfold consumed. cbn [rest RegExp.caps String.length].
  by rewrite Nat.sub_0_r, substring_whole.
Qed.

(** Every alternative ends with a slash or a question mark: where none
    follows, none matches. *)
Lemma rest_fails k c t caps :
  all_chars no_slash t = true ->
  run regExp_rest k (MState (String c t) caps) = None.
Proof.
  intros Hfree.
  destruct (run regExp_rest k (MState (String c t) caps)) as [r|] eqn:H; [|done].
  exfalso.
  change (run regExp_rest k (MState (String c t) caps))
    with (run (Alt (Group 2 (Seq (lit "youtu") (Seq (Class no_terminator) (lit "be/"))))
              (Alt (Group 3 (lit "v/"))
              (Alt (Group 4 (Seq (lit "/u/") (Seq word (lit "/"))))
              (Alt (Group 5 (lit "embed/"))
                   (Group 6 (lit "watch?"))))))
            (fun st' => run regExp_tail k
               (MState (rest st') ((1%nat, consumed (MState (String c t) caps) st') :: RegExp.caps st')))
            (MState (String c t) caps)) in H.
  repeat (apply run_alt_inv in H as [H|H]);
    match type of H with
    | run (Group ?n ?r0) ?k0 ?st = _ =>
        change (run (Group n r0) k0 st)
          with (run r0 (fun st' => k0 (MState (rest st') ((n, consumed st st') :: RegExp.caps st'))) st)
          in H
    end;
    rewrite ?run_seq in H;
    apply run_lit_inv in H as (t1 & Heq & H);
    try (apply run_class_inv in H as (c1 & t2 & -> & _ & H);
         apply run_lit_inv in H as (t3 & -> & H));
    injection Heq as -> ->;
    cbn [all_chars String.append] in Hfree;
    repeat (apply andb_true_iff in Hfree as [? Hfree]);
    discriminate.
Qed.

Lemma rest_fails_nil k caps : run regExp_rest k (MState "" caps) = None.
Proof. reflexivity. Qed.

Lemma rest_fails_among_id_chars k t caps :
  all_chars is_id_char t = true -> run regExp_rest k (MState t caps) = None.
Proof.
  destruct t as [|c t]; [intros _; apply rest_fails_nil|].
  intros [_ H]%andb_true_iff. apply rest_fails.
  by apply (all_chars_weaken is_id_char), H; apply id_char_no_slash.
Qed.

Lemma suffix_cases (a : ascii) (s before t : string) :
  String a s = before +:+ t -> before <> "" ->
  t = s \/ exists before', before' <> "" /\ s = before' +:+ t.
Proof.
  destruct before as [|b before]; [done|]. intros [= -> ->] _.
  destruct before as [|b' before]; [by left|].
  right. by exists (String b' before).
Qed.

Lemma all_chars_suffix (p : ascii -> bool) (s before t : string) :
  all_chars p s = true -> s = before +:+ t -> all_chars p t = true.
Proof. intros H ->. rewrite all_chars_app in H. by apply andb_true_iff in H as [_ ?]. Qed.

(** The pattern finds the last place where one of its alternatives
    matches. *)
Lemma exec_at_last (pre post : string) groups :
  all_chars no_terminator pre = true ->
  (forall before t, post = before +:+ t -> before <> "" ->
     run regExp_rest (fun st => Some (caps st)) (MState t []) = None) ->
  run regExp_rest (fun st => Some (caps st)) (MState post []) = Some groups ->
  exec_anchored regExp (pre +:+ post) = Some groups.
Proof.
  intros Hpre Hfail Hpost. unfold exec_anchored.
  change (run regExp (fun st => Some (caps st)) (MState (pre +:+ post) []))
    with (run (Star (Class no_terminator)) (run regExp_rest (fun st => Some (caps st)))
            (MState (pre +:+ post) [])).
  by apply star_finds_last.
Qed.

Lemma tail_plain (c : ascii) (s : string) caps0 :
  Ascii.eqb "?" c = false -> Ascii.eqb "v" c = false -> Ascii.eqb "=" c = false ->
  all_chars no_delimiter (String c s) = true ->
  run regExp_tail (fun st => Some (caps st)) (MState (String c s) caps0) =
    Some ((7%nat, String c s) :: caps0).
Proof.
  intros H1 H2 H3 Hall.
  change regExp_tail with
    (Seq (Opt (chr "?")) (Seq (Opt (chr "v")) (Seq (Opt (chr "="))
       (Seq (Group 7 (Star (Class no_delimiter))) (Star (Class no_terminator)))))).
  rewrite run_seq, opt_chr_skip by done.
  rewrite run_seq, opt_chr_skip by done.
  rewrite run_seq, opt_chr_skip by done.
  rewrite run_seq. by apply group_star_all.
Qed.

Lemma tail_v (c : ascii) (s : string) caps0 :
  Ascii.eqb "=" c = false ->
  all_chars no_delimiter (String c s) = true ->
  run regExp_tail (fun st => Some (caps st)) (MState (String "v" (String c s)) caps0) =
    Some ((7%nat, String c s) :: caps0).
Proof.
  intros H3 Hall.
  change regExp_tail with
    (Seq (Opt (chr "?")) (Seq (Opt (chr "v")) (Seq (Opt (chr "="))
       (Seq (Group 7 (Star (Class no_delimiter))) (Star (Class no_terminator)))))).
  rewrite run_seq, opt_chr_skip by done.
  rewrite run_seq. apply opt_chr_take.
  rewrite run_seq, opt_chr_skip by done.
  rewrite run_seq. by apply group_star_all.
Qed.

Lemma tail_v_eq (s : string) caps0 :
  all_chars no_delimiter s = true ->
  run regExp_tail (fun st => Some (caps st)) (MState (String "v" (String "=" s)) caps0) =
    Some ((7%nat, s) :: caps0).
Proof.
  intros Hall.
  change regExp_tail with
    (Seq (Opt (chr "?")) (Seq (Opt (chr "v")) (Seq (Opt (chr "="))
       (Seq (Group 7 (Star (Class no_delimiter))) (Star (Class no_terminator)))))).
  rewrite run_seq, opt_chr_skip by done.
  rewrite run_seq. apply opt_chr_take.
  rewrite run_seq. apply opt_chr_take.
  rewrite run_seq. by apply group_star_all.
Qed.

Ltac proper_suffixes H Hid :=
  repeat (apply suffix_cases in H as [->|(? & ? & H)]; [| |done]);
  first [ reflexivity
        | by apply rest_fails_among_id_chars
        | by apply rest_fails, (all_chars_weaken is_id_char), Hid; apply id_char_no_slash
        | apply rest_fails_among_id_chars; eapply all_chars_suffix; [exact Hid|exact H] ].

Ltac through_alternatives tail_lemma :=
  change (run regExp_rest (fun st => Some (caps st)))
    with (run regExp_alternatives (run regExp_tail (fun st => Some (caps st))));
  generalize tail_lemma;
  generalize (run regExp_tail (fun st => Some (caps st)));
  let K := fresh "K" in let HK := fresh "HK" in
  intros K HK; cbv -[consumed]; by rewrite HK.

Lemma watch_suffixes (id before t : string) :
  all_chars is_id_char id = true ->
  "watch?v=" +:+ id = before +:+ t -> before <> "" ->
  run regExp_rest (fun st => Some (caps st)) (MState t []) = None.
Proof. intros Hid H Hne. proper_suffixes H Hid. Qed.

Lemma short_link_suffixes (id before t : string) :
  all_chars is_id_char id = true ->
  "youtu.be/" +:+ id = before +:+ t -> before <> "" ->
  run regExp_rest (fun st => Some (caps st)) (MState t []) = None.
Proof. intros Hid H Hne. proper_suffixes H Hid. Qed.

(** X20: from a URL that ends with watch?v= and an identifier of eleven
    letters, digits, underscores or hyphens, whatever comes before on the
    line, the mock layer extracts that identifier. *)
Theorem watch_url_gives_id (pre id : string) :
  all_chars no_terminator pre = true ->
  String.length id = 11%nat ->
  all_chars is_id_char id = true ->
  getYoutubeVideoId (pre +:+ "watch?v=" +:+ id) = Some id.
Proof.
  intros Hpre Hlen Hid. unfold getYoutubeVideoId.
  assert (Hnd : all_chars no_delimiter id = true)
    by (apply (all_chars_weaken is_id_char); [apply id_char_no_delimiter|done]).
  assert (exists groups,
    exec_anchored regExp (pre +:+ "watch?v=" +:+ id) = Some ((7%nat, id) :: groups))
    as [groups ->].
  { eexists. apply exec_at_last; [done| |].
    - intros before t. by apply watch_suffixes.
    - through_alternatives (fun caps0 => tail_v_eq id caps0 Hnd). }
  cbn [capture Nat.eqb]. by rewrite Hlen.
Qed.

Lemma watch_url_gives_id_witness :
  getYoutubeVideoId "https://www.youtube.com/watch?v=vQw4w9WgXcQ" = Some "vQw4w9WgXcQ".
Proof.
  exact (watch_url_gives_id "https://www.youtube.com/" "vQw4w9WgXcQ" eq_refl eq_refl eq_refl).
Defined.

(** X21: from a URL that ends with youtu.be/ and an identifier of eleven
    letters, digits, underscores or hyphens that does not start with the
    letter v, the mock layer extracts that identifier. *)
Theorem short_link_gives_id (pre : string) (c : ascii) (id' : string) :
  all_chars no_terminator pre = true ->
  String.length (String c id') = 11%nat ->
  all_chars is_id_char (String c id') = true ->
  c <> "v"%char ->
  getYoutubeVideoId (pre +:+ "youtu.be/" +:+ String c id') = Some (String c id').
Proof.
  intros Hpre Hlen Hid Hv. unfold getYoutubeVideoId.
  assert (Hnd : all_chars no_delimiter (String c id') = true)
    by (apply (all_chars_weaken is_id_char); [apply id_char_no_delimiter|done]).
  assert (Hc : is_id_char c = true) by (by apply andb_true_iff in Hid as [? _]).
  assert (H1 : Ascii.eqb "?" c = false)
    by (apply Ascii.eqb_neq; intros <-; discriminate).
  assert (H2 : Ascii.eqb "v" c = false) by (by apply Ascii.eqb_neq).
  assert (H3 : Ascii.eqb "=" c = false)
    by (apply Ascii.eqb_neq; intros <-; discriminate).
  assert (exists groups,
    exec_anchored regExp (pre +:+ "youtu.be/" +:+ String c id') =
      Some ((7%nat, String c id') :: groups))
    as [groups ->].
  { eexists. apply exec_at_last; [done| |].
    - intros before t. by apply short_link_suffixes.
    - through_alternatives (fun caps0 => tail_plain c id' caps0 H1 H2 H3 Hnd). }
  cbn [capture Nat.eqb]. by rewrite Hlen.
Qed.

Lemma short_link_gives_id_witness :
  getYoutubeVideoId "https://youtu.be/dQw4w9WgXcQ" = Some "dQw4w9WgXcQ".
Proof.
  refine (short_link_gives_id "https://" "d" "Qw4w9WgXcQ" eq_refl eq_refl eq_refl _).
  discriminate.
Defined.

(** X22: a short link https://youtu.be/ with an identifier that starts with
    the letter v passes the check of the form, which hands it to
    [uploadYoutubeVideo]; but the pattern of the mock layer takes the v
    for its optional v and is left with ten characters, so that
    [mockUploadYoutubeVideo] rejects the URL as invalid and leaves the
    store as it is. *)
Theorem short_link_starting_with_v (fuel : nat) (amb : ambient) (id' quality : string)
    (onProgress : bool) (st : store) :
  String.length id' = 10%nat ->
  all_chars is_id_char id' = true ->
  let url := "https://youtu.be/v" +:+ id' in
  handleYoutubeUpload url quality = Some (url, Some quality) /\
  mockUploadYoutubeVideo fuel amb url onProgress st =
    Some (Rejected 0 (ErrorObj "Invalid YouTube URL"), [], st).
Proof.
  intros Hlen Hid url. split.
  - unfold handleYoutubeUpload.
    assert (validateYoutubeUrl url = true) as ->; [|reflexivity].
    rewrite <- (append_empty_r url).
    apply (accepted_urls "https://" "" "youtu.be/" (String "v" id') "");
      [set_solver|set_solver|set_solver|simpl; by rewrite Hlen| |done].
    simpl. by rewrite Hid.
  - unfold mockUploadYoutubeVideo.
    assert (getYoutubeVideoId url = None) as ->; [|done].
    unfold getYoutubeVideoId.
    destruct id' as [|c id']; [discriminate|].
    assert (Hnd : all_chars no_delimiter (String c id') = true)
      by (apply (all_chars_weaken is_id_char); [apply id_char_no_delimiter|done]).
    assert (Hc : is_id_char c = true) by (by apply andb_true_iff in Hid as [? _]).
    assert (H3 : Ascii.eqb "=" c = false)
      by (apply Ascii.eqb_neq; intros <-; discriminate).
    assert (Hid' : all_chars is_id_char (String "v" (String c id')) = true)
      by (simpl; simpl in Hid; by rewrite Hid).
    assert (exists groups,
      exec_anchored regExp ("https://" +:+ "youtu.be/" +:+ String "v" (String c id')) =
        Some ((7%nat, String c id') :: groups))
      as [groups Hex].
    { eexists. apply exec_at_last; [done| |].
      - intros before t. by apply short_link_suffixes.
      - through_alternatives (fun caps0 => tail_v c id' caps0 H3 Hnd). }
    change url with ("https://" +:+ "youtu.be/" +:+ String "v" (String c id')).
    rewrite Hex. cbn [capture Nat.eqb]. by rewrite Hlen.
Qed.

Lemma short_link_starting_with_v_witness :
  handleYoutubeUpload "https://youtu.be/vQw4w9WgXcQ" "720p" =
    Some ("https://youtu.be/vQw4w9WgXcQ", Some "720p") /\
  mockUploadYoutubeVideo 20 sample_ambient "https://youtu.be/vQw4w9WgXcQ" true initial_store =
    Some (Rejected 0 (ErrorObj "Invalid YouTube URL"), [], initial_store).
Proof.
  exact (short_link_starting_with_v 20 sample_ambient "Qw4w9WgXcQ" "720p" true initial_store
           eq_refl eq_refl).
Defined.
End Patterns.
